(** * jag watch: the watch-coordination core of [cmd/jag/commands/watch.go]

    A shallow embedding of the Go source: the [watcher] structure and its
    [Watch] method, the dependency-report parser, the [updateWatcher] and
    [runOnDevice] closures, the coordinator loop returned by
    [onWatchChanges] and the start-up checks of [WatchCmd].

    Go maps used as sets are stdpp [gset]s, Go strings are byte strings
    ([string]), [[]byte] is [list byte].  What the code asks of the
    operating system (stat, symbolic links, inotify registrations) is a
    field of the [Platform] class, and what a probe or a run meets (the
    temporary file, the analyzer, the device) is an input of its step, so
    every theorem holds for every file system and every behaviour of the
    collaborators. *)

From stdpp Require Import base strings list gmap sets.
From Stdlib Require Import ZArith Lia Ascii.
From Stdlib Require String.
From Stdlib.Strings Require Import Byte.

#[local] Set Warnings "-clear-no-such-hyp".

(** ** Go values *)

(** A Go [error] is represented by its message. *)
Definition error := string.

(** [(T, error)] results. *)
Inductive result (A : Type) : Type :=
| Ok (a : A)
| Err (e : error).
Arguments Ok {A} a.
Arguments Err {A} e.

Definition isOk {A} (r : result A) : bool :=
  match r with Ok _ => true | Err _ => false end.

(** ** Strings: [strings.TrimSpace], [strings.TrimSuffix] *)

Module GoStrings.

Definition bytes := list ascii.

(** [strings.HasPrefix] on the bytes of a string. *)
Fixpoint HasPrefix (s p : bytes) {struct p} : bool :=
  match p, s with
  | [], _ => true
  | c :: p', d :: s' => Ascii.eqb c d && HasPrefix s' p'
  | _ :: _, [] => false
  end.

Definition HasSuffix (s p : bytes) : bool :=
  HasPrefix (reverse s) (reverse p).

Definition ofCodes (l : list N) : bytes := ascii_of_N <$> l.

(** The UTF-8 encodings of the runes for which [unicode.IsSpace] holds:
    the six ASCII ones (['\t'], ['\n'], ['\v'], ['\f'], ['\r'], [' ']),
    U+0085, U+00A0, U+1680, U+2000..U+200A, U+2028, U+2029, U+202F,
    U+205F and U+3000.  A valid encoding is unique and an invalid byte
    decodes to U+FFFD, which is no space, so the leading (trailing) rune
    of a string is a space exactly when one of these byte sequences is a
    prefix (suffix) of it. *)
Definition spaceRunes : list bytes :=
  ofCodes <$>
    [ [9]; [10]; [11]; [12]; [13]; [32];
      [194; 133]; [194; 160];
      [225; 154; 128];
      [226; 128; 128]; [226; 128; 129]; [226; 128; 130]; [226; 128; 131];
      [226; 128; 132]; [226; 128; 133]; [226; 128; 134]; [226; 128; 135];
      [226; 128; 136]; [226; 128; 137]; [226; 128; 138];
      [226; 128; 168]; [226; 128; 169]; [226; 128; 175];
      [226; 129; 159];
      [227; 128; 128] ]%N.

(** The first rune of [runes] that [s] starts with. *)
Definition leadingRune (runes : list bytes) (s : bytes) : option bytes :=
  find (HasPrefix s) runes.

(** [strings.TrimLeftFunc]: drop leading runes while they are in [runes]. *)
Fixpoint trimLeftRunes (fuel : nat) (runes : list bytes) (s : bytes) : bytes :=
  match fuel with
  | O => s
  | S fuel' =>
      match leadingRune runes s with
      | Some r =>
          match r with
          | [] => s
          | _ :: _ => trimLeftRunes fuel' runes (drop (length r) s)
          end
      | None => s
      end
  end.

Definition TrimLeftSpace (s : bytes) : bytes :=
  trimLeftRunes (length s) spaceRunes s.

(** [strings.TrimRightFunc] scans from the end of the string. *)
Definition TrimRightSpace (s : bytes) : bytes :=
  reverse (trimLeftRunes (length s) (reverse <$> spaceRunes) (reverse s)).

(** [strings.TrimSpace(s)]: [s] without leading and trailing white space
    as Unicode defines it. *)
Definition TrimSpace (s : string) : string :=
  String.string_of_list_ascii
    (TrimRightSpace (TrimLeftSpace (String.list_ascii_of_string s))).

(** [strings.TrimSuffix(s, suffix)]: [s] without the trailing [suffix],
    once; [s] itself when it does not end in [suffix]. *)
Definition TrimSuffix (s suffix : string) : string :=
  let b := String.list_ascii_of_string s in
  let x := String.list_ascii_of_string suffix in
  if HasSuffix b x
  then String.string_of_list_ascii (take (length b - length x) b)
  else s.

(** A run of runes of [runes], one after the other. *)
Inductive runsOf (runes : list bytes) : bytes → Prop :=
| runsOf_nil : runsOf runes []
| runsOf_cons r s : r ∈ runes → runsOf runes s → runsOf runes (r ++ s).

(** White space: a run of space runes. *)
Definition spaces (s : bytes) : Prop := runsOf spaceRunes s.

End GoStrings.

(** ** [bufio.Scanner] with the default split function [bufio.ScanLines] *)

Module GoScanner.

(** [bufio.MaxScanTokenSize]: the scanner's buffer never grows past it. *)
Definition MaxScanTokenSize : N := 65536.

Definition newline : byte := x0a.
Definition carriageReturn : byte := x0d.

(** [dropCR]: one trailing ['\r'] is removed from a line. *)
Definition dropCR (data : list byte) : list byte :=
  match reverse data with
  | c :: r => if Byte.eqb c carriageReturn then reverse r else data
  | [] => data
  end.

(** The newline-terminated lines of [data] without their newline, and a
    last line with no newline when it is not empty.  [cur] holds the bytes
    of the current line read so far, last byte first. *)
Fixpoint splitLines (cur data : list byte) : list (list byte) :=
  match data with
  | [] => match cur with [] => [] | _ :: _ => [reverse cur] end
  | b :: rest =>
      if Byte.eqb b newline
      then reverse cur :: splitLines [] rest
      else splitLines (b :: cur) rest
  end.

(** A line fits when the buffer, at its largest, is not full before the
    line's end is seen. *)
Definition fits (line : list byte) : bool :=
  (N.of_nat (length line) <? MaxScanTokenSize)%N.

(** The lines up to the first one the scanner cannot hold. *)
Fixpoint whileFits (lines : list (list byte)) : list (list byte) :=
  match lines with
  | [] => []
  | l :: rest => if fits l then l :: whileFits rest else []
  end.

(** The tokens [scanner.Scan()] yields before it returns [false]: at the
    first line that does not fit the scanner stops with [ErrTooLong] (an
    error the caller of [Scan] does not see), and the lines after it are
    never produced. *)
Definition scanLines (data : list byte) : list (list byte) :=
  dropCR <$> whileFits (splitLines [] data).

(** [scanner.Text()]. *)
Definition Text (token : list byte) : string := String.string_of_list_byte token.

(** The lines, each with its newline back, one after the other. *)
Definition unlines (lines : list (list byte)) : list byte :=
  concat ((λ l, l ++ [newline]) <$> lines).

End GoScanner.

(** ** The operating system, as the code sees it *)

(** What [os.Stat] returns: a [FileInfo] (of which the code reads [IsDir()]
    only), an error for which [os.IsNotExist] holds, or another error. *)
Inductive StatResult :=
| StatInfo (isDir : bool)
| StatNotExist
| StatError (e : error).

(** One file system and one inotify instance.  The fields are arbitrary
    functions: nothing is assumed of them. *)
Class Platform := {
  (** [os.Stat(name)] *)
  os_Stat : string → StatResult;
  (** [filepath.EvalSymlinks(path)] *)
  filepath_EvalSymlinks : string → result string;
  (** [filepath.Dir(path)] *)
  filepath_Dir : string → string;
  (** [fsnotify.NewWatcher()] fails with this error, if any. *)
  inotify_init : option error;
  (** The OS refuses to register (unregister) this directory with this
      error, if any: the directory vanished, permission is denied, ... *)
  inotify_add : string → option error;
  inotify_rm : string → option error;
}.

(** ** The platform watch primitive: [github.com/fsnotify/fsnotify] *)

Module fsnotify.

(** The calls a [Watcher] received, in order. *)
Inductive Call :=
| CallAdd (name : string)
| CallRemove (name : string).

(** A [Watcher]: the directories currently registered with the OS and the
    history of [Add] and [Remove] calls. *)
Record Watcher := mkWatcher {
  watches : gset string;
  calls : list Call;
}.

Definition NewWatcher `{Platform} : result Watcher :=
  match inotify_init with
  | Some e => Err e
  | None => Ok {| watches := ∅; calls := [] |}
  end.

(** [w.Add(name)]: registers [name]; registering a watched directory again
    leaves one registration. *)
Definition Add `{Platform} (w : Watcher) (name : string) : Watcher * option error :=
  match inotify_add name with
  | Some e => ({| watches := watches w; calls := calls w ++ [CallAdd name] |}, Some e)
  | None => ({| watches := {[name]} ∪ watches w; calls := calls w ++ [CallAdd name] |}, None)
  end.

(** [w.Remove(name)]: an error when [name] is not watched. *)
Definition Remove `{Platform} (w : Watcher) (name : string) : Watcher * option error :=
  let w' := {| watches := watches w ∖ {[name]}; calls := calls w ++ [CallRemove name] |} in
  if bool_decide (name ∈ watches w)
  then (w', inotify_rm name)
  else (w', Some ("can't remove non-existent watch: " +:+ name)).

(** [fsnotify.Op]: a bit mask. *)
Definition Create : Z := 1.
Definition Write : Z := 2.
Definition Rm : Z := 4.
Definition Rename : Z := 8.
Definition Chmod : Z := 16.

Record Event := mkEvent {
  Name : string;
  Op : Z;
}.

End fsnotify.

(** ** [type watcher struct] *)

(** The embedded [sync.Mutex] is not a field here: every method below is one
    atomic transition, which is what holding the mutex for the whole method
    gives. *)
Record watcher := mkW {
  (** field [watcher *fsnotify.Watcher] *)
  notify : fsnotify.Watcher;
  (** field [dirs map[string]struct{}]; [newWatcher] leaves it [nil], and a
      [nil] map reads as the empty map. *)
  dirs : gset string;
  (** field [paths map[string]struct{}] *)
  paths : gset string;
}.

Section Watcher.
Context `{Platform}.

Definition newWatcher : result watcher :=
  match fsnotify.NewWatcher with
  | Err e => Err e
  | Ok w => Ok {| notify := w; dirs := ∅; paths := ∅ |}
  end.

Definition CountPaths (w : watcher) : nat := size (paths w).

(** The first loop of [Watch]: [paths[i], err = filepath.EvalSymlinks(p)],
    returning at the first error. *)
Fixpoint evalSymlinksAll (ps : list string) : result (list string) :=
  match ps with
  | [] => Ok []
  | p :: rest =>
      match filepath_EvalSymlinks p with
      | Err e => Err e
      | Ok q =>
          match evalSymlinksAll rest with
          | Err e => Err e
          | Ok qs => Ok (q :: qs)
          end
      end
  end.

(** The state of the second loop: the watcher, [candidateDirs] and
    [candidates]. *)
Record marking := mkMarking {
  marked : watcher;
  candidateDirs : gset string;
  candidates : gset string;
}.

(** One iteration of the second loop, for the path [p]. *)
Definition markPath (m : marking) (p : string) : marking :=
  let w := marked m in
  let dir := filepath_Dir p in
  let paths' := {[p]} ∪ paths w in
  let notify' :=
    if bool_decide (dir ∈ dirs w)
    then notify w
    else fst (fsnotify.Add (notify w) dir) in
  {| marked := {| notify := notify'; dirs := dirs w; paths := paths' |};
     candidateDirs := {[dir]} ∪ candidateDirs m;
     candidates := {[p]} ∪ candidates m |}.

(** One iteration of the last loop, for the directory [d] of [w.dirs]. *)
Definition sweepDir (cands : gset string) (w : watcher) (d : string) : watcher :=
  if bool_decide (d ∈ cands)
  then w
  else {| notify := fst (fsnotify.Remove (notify w) d);
          dirs := dirs w ∖ {[d]};
          paths := paths w |}.

(** [func (w *watcher) Watch(paths ...string) (err error)] *)
Definition Watch (w : watcher) (ps : list string) : watcher * option error :=
  match evalSymlinksAll ps with
  | Err e => (w, Some e)
  | Ok ps' =>
      let m := foldl markPath {| marked := w; candidateDirs := ∅; candidates := ∅ |} ps' in
      let w1 := marked m in
      let w2 := {| notify := notify w1;
                   dirs := dirs w1;
                   paths := filter (λ p, p ∈ candidates m) (paths w1) |} in
      (foldl (sweepDir (candidateDirs m)) w2 (elements (dirs w2)), None)
  end.

(** ** [parseDependeniesToDirs] *)

(** The loop body: [p := strings.TrimSuffix(strings.TrimSpace(scanner.Text()), ":")]. *)
Definition dependencyOfLine (token : list byte) : string :=
  GoStrings.TrimSuffix (GoStrings.TrimSpace (GoScanner.Text token)) ":".

Definition statSucceeds (p : string) : bool :=
  match os_Stat p with
  | StatInfo _ => true
  | _ => false
  end.

Definition recordDependency (m : gset string) (token : list byte) : gset string :=
  let p := dependencyOfLine token in
  if statSucceeds p then {[p]} ∪ m else m.

(** The result lists the keys of the map [m], in the order the map yields
    them. *)
Definition parseDependeniesToDirs (b : list byte) : list string :=
  elements (foldl recordDependency ∅ (GoScanner.scanLines b)).

End Watcher.

(** ** Contexts, goroutines and the observable trace *)

(** A [context.Context] is known by its identity.  [rootCtx] is
    [cmd.Context()]; every other context is a child of it made by
    [context.WithCancel(ctx)]. *)
Definition Ctx := nat.
Definition rootCtx : Ctx := 0.

(** What the program does that can be seen from outside its variables. *)
Inductive Action :=
| Println (line : string)
| WithCancel (c : Ctx)
| Cancel (c : Ctx)
| GoUpdateWatcher (c : Ctx)
| StartRunOnDevice (c : Ctx)
| TickerReset
| TickerStop
| CloseDone.

#[global] Instance Action_eq_dec : EqDecision Action.
Proof. solve_decision. Defined.

(** What one run of [updateWatcher] meets outside the program. *)
Record ProbeIO := mkProbeIO {
  (** [os.CreateTemp("", "*.txt")]: the file's name, or an error *)
  createTemp : result string;
  (** how the analyzer ends when nobody aborts it: [None] is success *)
  analyzerExit : option error;
  (** [os.ReadFile(tmpFile.Name())] after the analyzer succeeded *)
  readFile : result (list byte);
}.

(** The variables of [onWatchChanges] and of the loop it returns, the
    [watcher] they share with the goroutines, and the bookkeeping of the
    runtime (contexts, goroutines not yet run, trace). *)
Record State := mkState {
  shared : watcher;
  cancelled : gset Ctx;
  nextCtx : Ctx;
  pendingProbes : list Ctx;
  pendingRuns : list Ctx;
  trace : list Action;
  fired : bool;
  previousCancel : Ctx;
  tickerNext : Z;
  running : bool;
}.

Definition emit (acts : list Action) (s : State) : State :=
  {| shared := shared s; cancelled := cancelled s; nextCtx := nextCtx s;
     pendingProbes := pendingProbes s; pendingRuns := pendingRuns s;
     trace := trace s ++ acts;
     fired := fired s; previousCancel := previousCancel s;
     tickerNext := tickerNext s; running := running s |}.

Definition setShared (w : watcher) (s : State) : State :=
  {| shared := w; cancelled := cancelled s; nextCtx := nextCtx s;
     pendingProbes := pendingProbes s; pendingRuns := pendingRuns s;
     trace := trace s;
     fired := fired s; previousCancel := previousCancel s;
     tickerNext := tickerNext s; running := running s |}.

(** A context is done once its cancel function was called, or its
    parent's. *)
Definition ctxDone (s : State) (c : Ctx) : bool :=
  bool_decide (c ∈ cancelled s) || bool_decide (rootCtx ∈ cancelled s).

(** Modelled from the spec: [sdk.ToitAnalyze(ctx, args...)] followed by
    [cmd.Run()]; the SDK wrapper is not in src/.  The spec (4.2): the
    Analyzer is invoked within a cancellation scope, and "if the scope is
    cancelled before completion, the invocation is aborted".  So the command
    made for the context [c] fails when [c] is done before the analyzer
    completes, and ends as the analyzer itself does otherwise. *)
Definition ToitAnalyze_Run (s : State) (c : Ctx) (io : ProbeIO) : option error :=
  if ctxDone s c then Some "signal: killed" else analyzerExit io.

(** The period of the ticker, in milliseconds:
    [ticketDuration := 100 * time.Millisecond]. *)
Definition ticketDuration : Z := 100.

(** What one [select] of the loop receives. *)
Inductive Select :=
| RecvEvent (event : fsnotify.Event)
| EventsClosed
| RecvTick
| RecvError (err : error)
| ErrorsClosed
| CtxDone.

(** What happens next in the process: the loop receives something, a
    goroutine started earlier runs, or [cmd.Context()] is cancelled from
    outside (an interrupt). *)
Inductive Step :=
| Loop (sel : Select)
| Probe (c : Ctx) (io : ProbeIO)
| Device (c : Ctx) (runFile : option error)
| Interrupt.

Section Coordinator.
Context `{Platform}.
(** The command's argument. *)
Variable entrypoint : string.

(** The tail of [updateWatcher], from [if len(paths) == 0]. *)
Definition applyPaths (ps : list string) (s : State) : State :=
  let ps' := match ps with [] => [filepath_Dir entrypoint] | _ :: _ => ps end in
  let '(w, err) := Watch (shared s) ps' in
  let s' := setShared w s in
  match err with
  | Some e => emit [Println ("Failed to update watcher:  " +:+ e)] s'
  | None => s'
  end.

(** [updateWatcher := func(runCtx context.Context)].  The analyzer command
    is made for [ctx], the context of the command line; [runCtx] does not
    occur in the body. *)
Definition updateWatcher (runCtx : Ctx) (io : ProbeIO) (s : State) : State :=
  match createTemp io with
  | Ok tmpFile =>
      match ToitAnalyze_Run s rootCtx io with
      | None =>
          match readFile io with
          | Ok b => applyPaths (parseDependeniesToDirs b) s
          | Err _ => applyPaths [] s
          end
      | Some _ =>
          (* A compilation error happened, we let the watch paths be if
             there was some. *)
          if bool_decide (0 < CountPaths (shared s)) then s else applyPaths [] s
      end
  | Err _ => applyPaths [] s
  end.

(** [runOnDevice := func(runCtx context.Context)], with the result of
    [RunFile]; [runCtx] does not occur in the body either. *)
Definition runOnDevice (runCtx : Ctx) (runFile : option error) (s : State) : State :=
  match runFile with
  | Some e => emit [Println ("Error: " +:+ e)] s
  | None => s
  end.

(** [onWatchChanges] up to its [return]: the first context, the first
    probe as a goroutine, the first run in place.  [now] is the time at
    which the returned function starts and makes its ticker. *)
Definition onWatchChanges (w : watcher) (runFile : option error) (now : Z) : State :=
  let firstCtx : Ctx := 1 in
  runOnDevice firstCtx runFile
    {| shared := w; cancelled := ∅; nextCtx := 2;
       pendingProbes := [firstCtx]; pendingRuns := [];
       trace := [WithCancel firstCtx; GoUpdateWatcher firstCtx; StartRunOnDevice firstCtx];
       fired := false; previousCancel := firstCtx;
       tickerNext := now + ticketDuration; running := true |}.

(** The loop returns: the deferred [ticker.Stop()] and [close(doneCh)]. *)
Definition leave (s : State) : State :=
  {| shared := shared s; cancelled := cancelled s; nextCtx := nextCtx s;
     pendingProbes := pendingProbes s; pendingRuns := pendingRuns s;
     trace := trace s ++ [TickerStop; CloseDone];
     fired := fired s; previousCancel := previousCancel s;
     tickerNext := tickerNext s; running := false |}.

(** The body of [if !fired { ... }]. *)
Definition accept (now : Z) (name : string) (s : State) : State :=
  let innerCtx := nextCtx s in
  {| shared := shared s;
     cancelled := {[previousCancel s]} ∪ cancelled s;
     nextCtx := S innerCtx;
     pendingProbes := pendingProbes s ++ [innerCtx];
     pendingRuns := pendingRuns s ++ [innerCtx];
     trace := trace s ++
       [Println ("File modified '" +:+ name +:+ "'");
        Cancel (previousCancel s);
        WithCancel innerCtx;
        GoUpdateWatcher innerCtx;
        StartRunOnDevice innerCtx;
        TickerReset];
     fired := true;
     previousCancel := innerCtx;
     tickerNext := now + ticketDuration;
     running := true |}.

Definition isWrite (op : Z) : bool :=
  (Z.land op fsnotify.Write =? fsnotify.Write)%Z.

(** One iteration of [for { select { ... } }], at the time [now]. *)
Definition iteration (now : Z) (s : State) (sel : Select) : State :=
  match sel with
  | RecvEvent event =>
      if bool_decide (fsnotify.Name event ∈ paths (shared s)) then
        if isWrite (fsnotify.Op event) then
          if fired s then s else accept now (fsnotify.Name event) s
        else s
      else s (* Not a file we are watching. *)
  | EventsClosed => leave s
  | RecvTick =>
      {| shared := shared s; cancelled := cancelled s; nextCtx := nextCtx s;
         pendingProbes := pendingProbes s; pendingRuns := pendingRuns s;
         trace := trace s;
         fired := false; previousCancel := previousCancel s;
         tickerNext := tickerNext s + ticketDuration; running := running s |}
  | RecvError err => emit [Println ("Watch error: " +:+ err)] s
  | ErrorsClosed => leave s
  | CtxDone => if bool_decide (rootCtx ∈ cancelled s) then leave s else s
  end.

Definition withoutProbe (c : Ctx) (s : State) : State :=
  {| shared := shared s; cancelled := cancelled s; nextCtx := nextCtx s;
     pendingProbes := List.remove Nat.eq_dec c (pendingProbes s);
     pendingRuns := pendingRuns s;
     trace := trace s;
     fired := fired s; previousCancel := previousCancel s;
     tickerNext := tickerNext s; running := running s |}.

Definition withoutRun (c : Ctx) (s : State) : State :=
  {| shared := shared s; cancelled := cancelled s; nextCtx := nextCtx s;
     pendingProbes := pendingProbes s;
     pendingRuns := List.remove Nat.eq_dec c (pendingRuns s);
     trace := trace s;
     fired := fired s; previousCancel := previousCancel s;
     tickerNext := tickerNext s; running := running s |}.

Definition interrupt (s : State) : State :=
  {| shared := shared s; cancelled := {[rootCtx]} ∪ cancelled s; nextCtx := nextCtx s;
     pendingProbes := pendingProbes s; pendingRuns := pendingRuns s;
     trace := trace s;
     fired := fired s; previousCancel := previousCancel s;
     tickerNext := tickerNext s; running := running s |}.

(** One step of the process.  The loop takes steps while it has not
    returned; a goroutine runs once, after it was started. *)
Definition step (now : Z) (s : State) (st : Step) : State :=
  match st with
  | Loop sel => if running s then iteration now s sel else s
  | Probe c io =>
      if bool_decide (c ∈ pendingProbes s)
      then updateWatcher c io (withoutProbe c s)
      else s
  | Device c runFile =>
      if bool_decide (c ∈ pendingRuns s)
      then runOnDevice c runFile (withoutRun c s)
      else s
  | Interrupt => interrupt s
  end.

(** A schedule: the steps of a run, each with the time it is taken at, in
    milliseconds. *)
Definition Schedule := list (Z * Step).

Definition exec (s : State) (sched : Schedule) : State :=
  foldl (λ s ts, step (fst ts) s (snd ts)) s sched.

(** Time does not go backwards, and the loop receives no tick before the
    ticker is due. *)
Fixpoint wellTimed (now : Z) (s : State) (sched : Schedule) : Prop :=
  match sched with
  | [] => True
  | (t, st) :: rest =>
      (now ≤ t)%Z ∧
      (st = Loop RecvTick → (tickerNext s ≤ t)%Z) ∧
      wellTimed t (step t s st) rest
  end.

Definition startsRun (a : Action) : bool :=
  match a with StartRunOnDevice _ => true | _ => false end.

(** The generations started so far: one [runOnDevice] each. *)
Definition generations (s : State) : nat :=
  length (List.filter startsRun (trace s)).

End Coordinator.

(** ** [WatchCmd]: the [RunE] function of the command *)

(** The results of the collaborators [RunE] calls before it makes the
    watcher; their code is not part of this core.  [None] is success. *)
Record Collaborators := mkCollaborators {
  GetProgramAssetsPath : result string;
  parseDeviceFlag : option error;
  GetSDK : option error;
  GetDevice : option error;
  (** [cmd.Flags().GetInt("optimization-level")] when the flag was given *)
  optimizationLevelFlag : option (result Z);
}.

(** The calls of [RunE], in the order it makes them. *)
Inductive StartupCall :=
| CallGetProgramAssetsPath
| CallStat
| CallParseDeviceFlag
| CallGetSDK
| CallGetDevice
| CallGetInt
| CallNewWatcher
| CallOnWatchChanges.

#[global] Instance StartupCall_eq_dec : EqDecision StartupCall.
Proof. solve_decision. Defined.

(** How [RunE] stands after a schedule: it returned an error, it waits on
    [<-waitCh] while the loop runs, or it returned [nil] after the loop
    closed [doneCh] (and the deferred [watcher.Close()]). *)
Inductive Outcome :=
| Failed (e : error)
| Waiting (s : State)
| Returned (s : State).

Section WatchCmd.
Context `{Platform}.

Definition RunE (env : Collaborators) (entrypoint : string)
    (runFile : option error) (now : Z) (sched : Schedule) : list StartupCall * Outcome :=
  match GetProgramAssetsPath env with
  | Err e => ([CallGetProgramAssetsPath], Failed e)
  | Ok programAssetsPath =>
  match os_Stat entrypoint with
  | StatNotExist =>
      ([CallGetProgramAssetsPath; CallStat],
       Failed ("no such file or directory: '" +:+ entrypoint +:+ "'"))
  | StatError e =>
      ([CallGetProgramAssetsPath; CallStat],
       Failed ("can't stat file '" +:+ entrypoint +:+ "', reason: " +:+ e))
  | StatInfo true =>
      ([CallGetProgramAssetsPath; CallStat],
       Failed ("can't watch directory: '" +:+ entrypoint +:+ "'"))
  | StatInfo false =>
  match parseDeviceFlag env with
  | Some e => ([CallGetProgramAssetsPath; CallStat; CallParseDeviceFlag], Failed e)
  | None =>
  match GetSDK env with
  | Some e => ([CallGetProgramAssetsPath; CallStat; CallParseDeviceFlag; CallGetSDK], Failed e)
  | None =>
  match GetDevice env with
  | Some e =>
      ([CallGetProgramAssetsPath; CallStat; CallParseDeviceFlag; CallGetSDK; CallGetDevice],
       Failed e)
  | None =>
  let flagCalls := match optimizationLevelFlag env with Some _ => [CallGetInt] | None => [] end in
  let early :=
    [CallGetProgramAssetsPath; CallStat; CallParseDeviceFlag; CallGetSDK; CallGetDevice]
      ++ flagCalls in
  match optimizationLevelFlag env with
  | Some (Err e) => (early, Failed e)
  | _ =>
  match newWatcher with
  | Err e => (early ++ [CallNewWatcher], Failed e)
  | Ok watcher =>
      let s := exec entrypoint (onWatchChanges watcher runFile now) sched in
      (early ++ [CallNewWatcher; CallOnWatchChanges],
       if running s then Waiting s else Returned s)
  end end end end end end end.

End WatchCmd.

(** ** A concrete platform for the scenarios of the specification *)

Module Demo.

(** [filepath.Dir] on a clean, slash-separated path with no trailing
    slash: the text before the last slash, ["."] when there is no slash,
    ["/"] for a file of the root. *)
Fixpoint afterLastSlash (s : list ascii) : list ascii :=
  match s with
  | [] => []
  | c :: r => if Ascii.eqb c "/" then r else afterLastSlash r
  end.

Definition posixDir (p : string) : string :=
  let r := reverse (String.list_ascii_of_string p) in
  if existsb (Ascii.eqb "/") r
  then match afterLastSlash r with
       | [] => "/"
       | d => String.string_of_list_ascii (reverse d)
       end
  else ".".

Definition files : gset string := {[ "main.toit"; "lib/a.toit"; "lib/b.toit"; "pkg/c.toit" ]}.
Definition directories : gset string := {[ "."; "lib"; "pkg" ]}.

Definition stat (p : string) : StatResult :=
  if bool_decide (p ∈ files) then StatInfo false
  else if bool_decide (p ∈ directories) then StatInfo true
  else StatNotExist.

(** No symbolic links: an existing path resolves to itself. *)
Definition evalSymlinks (p : string) : result string :=
  match stat p with
  | StatInfo _ => Ok p
  | _ => Err ("lstat " +:+ p +:+ ": no such file or directory")
  end.

Definition platform : Platform :=
  {| os_Stat := stat;
     filepath_EvalSymlinks := evalSymlinks;
     filepath_Dir := posixDir;
     inotify_init := None;
     inotify_add := λ _, None;
     inotify_rm := λ _, None |}.

(** The same file system, on which the directory of the entrypoint
    vanished before its symbolic links are resolved. *)
Definition vanished : Platform :=
  {| os_Stat := stat;
     filepath_EvalSymlinks := λ p,
       if bool_decide (p = ".") then Err "lstat .: no such file or directory"
       else evalSymlinks p;
     filepath_Dir := posixDir;
     inotify_init := None;
     inotify_add := λ _, None;
     inotify_rm := λ _, None |}.

(** The fresh watcher [newWatcher] returns. *)
Definition fresh : watcher :=
  {| notify := {| fsnotify.watches := ∅; fsnotify.calls := [] |}; dirs := ∅; paths := ∅ |}.

(** An analyzer report and the probe that reads it. *)
Definition LF : string := String (ascii_of_nat 10) "".

Definition report (lines : list string) : list byte :=
  String.list_byte_of_string (foldr (λ l acc, l +:+ LF +:+ acc) "" lines).

Definition analyzed (lines : list string) : ProbeIO :=
  {| createTemp := Ok "/tmp/123.txt"; analyzerExit := None; readFile := Ok (report lines) |}.

Definition compileError : ProbeIO :=
  {| createTemp := Ok "/tmp/123.txt";
     analyzerExit := Some "exit status 1";
     readFile := Ok [] |}.

Definition write (name : string) : Step :=
  Loop (RecvEvent {| fsnotify.Name := name; fsnotify.Op := fsnotify.Write |}).

Definition collaborators : Collaborators :=
  {| GetProgramAssetsPath := Ok "";
     parseDeviceFlag := None;
     GetSDK := None;
     GetDevice := None;
     optimizationLevelFlag := None |}.

End Demo.

(** A platform on which the OS answers registrations as [add] and [rm] say,
    and which is [P] otherwise. *)
Definition withRegistrationErrors (P : Platform) (add rm : string → option error) : Platform :=
  {| os_Stat := @os_Stat P;
     filepath_EvalSymlinks := @filepath_EvalSymlinks P;
     filepath_Dir := @filepath_Dir P;
     inotify_init := @inotify_init P;
     inotify_add := add;
     inotify_rm := rm |}.

(** The watcher after the analyzer reported [lib/a.toit] and [lib/b.toit]
    (scenario 2 of the specification), after the same report once more, and
    after a later report that lists [pkg/c.toit] only. *)
Module Scenario2.
Import Demo.

Definition report1 : list string := ["lib/a.toit"; "lib/b.toit"].
Definition report2 : list string := ["pkg/c.toit"].

Definition first : watcher * option error := @Watch platform fresh report1.
Definition again : watcher * option error := @Watch platform (fst first) report1.
Definition later : watcher * option error := @Watch platform (fst first) report2.

End Scenario2.

(** Runs of the whole command on [main.toit]. *)
Module Runs.
Import Demo.

(** The loop has just started, at time 0: nothing is watched yet, the first
    probe has not run. *)
Definition start : State := onWatchChanges fresh None 0.

(** The first probe finds [main.toit] alone, at 5 ms. *)
Definition firstProbe : Z * Step := (5%Z, Probe 1 (analyzed ["main.toit"])).

Definition probed : State := @exec platform "main.toit" start [firstProbe].

(** Two edits, the second after the debounce window; the probe of the
    generation the second edit cancelled completes last, and reports a new
    dependency. *)
Definition twoEdits : Schedule :=
  [ firstProbe;
    (10%Z, write "main.toit");
    (110%Z, Loop RecvTick);
    (120%Z, write "main.toit") ].

Definition staleProbe : Step := Probe 2 (analyzed ["main.toit"; "lib/a.toit"]).

Definition beforeStaleProbe : State := @exec platform "main.toit" start twoEdits.
Definition afterStaleProbe : State :=
  @step platform "main.toit" 130%Z beforeStaleProbe staleProbe.

(** A burst of three writes within one window. *)
Definition burst : Schedule :=
  [ firstProbe;
    (10%Z, write "main.toit"); (40%Z, write "main.toit"); (70%Z, write "main.toit") ].

(** A write that follows a coalesced one across the end of the window. *)
Definition straddle : Schedule :=
  [ firstProbe;
    (10%Z, write "main.toit"); (70%Z, write "main.toit");
    (110%Z, Loop RecvTick); (120%Z, write "main.toit") ].

(** A write at the very moment the ticker is due: the tick is already in
    [ticker.C] when the write is accepted, [ticker.Reset] does not drain
    the channel (Go before 1.23), and the loop receives the tick next. *)
Definition staleTick : Schedule :=
  [ (100%Z, write "main.toit"); (101%Z, Loop RecvTick); (130%Z, write "main.toit") ].

(** The OS refuses every registration. *)
Definition denied : Platform :=
  withRegistrationErrors platform (λ _, Some "permission denied") (λ _, Some "permission denied").

End Runs.

(** A report with a line of 65536 bytes between two dependencies. *)
Module LongLine.

Definition line : list byte := replicate (N.to_nat GoScanner.MaxScanTokenSize) x78.

Definition before : list (list byte) := [String.list_byte_of_string "lib/a.toit:"].
Definition after : list (list byte) := [String.list_byte_of_string "lib/b.toit:"].

Definition reportBytes : list byte := GoScanner.unlines (before ++ line :: after).

End LongLine.

(** * The vocabulary of the statements *)

(** From the words of the specification ("strip trailing [:] and
    surrounding whitespace per line"): [p] is [line] without the white space
    around it and without one colon at the end of what is left. *)
Definition strippedFrom (line p : string) : Prop :=
  ∃ pre core post : list ascii,
    String.list_ascii_of_string line = pre ++ core ++ post
    ∧ GoStrings.spaces pre
    ∧ GoStrings.spaces post
    ∧ (∀ r, r ∈ GoStrings.spaceRunes → ¬ r `prefix_of` core ∧ ¬ r `suffix_of` core)
    ∧ (core = String.list_ascii_of_string p ++ [":"%char]
       ∨ (core = String.list_ascii_of_string p ∧ ¬ [":"%char] `suffix_of` core)).

(** Two watchers that differ at most in what the OS has registered. *)
Definition sameButWatches (w1 w2 : watcher) : Prop :=
  dirs w1 = dirs w2
  ∧ paths w1 = paths w2
  ∧ fsnotify.calls (notify w1) = fsnotify.calls (notify w2).

(** Two states that differ at most in what the OS has registered. *)
Definition sameButRegistered (s1 s2 : State) : Prop :=
  sameButWatches (shared s1) (shared s2)
  ∧ s2 = setShared (shared s2) s1.

(** Actions that start and cancel nothing. *)
Definition quiet (a : Action) : bool :=
  match a with
  | Println _ | TickerStop | CloseDone => true
  | _ => false
  end.

(** A step that starts and cancels nothing: it leaves the contexts of the
    loop alone and adds quiet actions only. *)
Definition quietStep (s s' : State) : Prop :=
  nextCtx s' = nextCtx s
  ∧ previousCancel s' = previousCancel s
  ∧ ∃ new, trace s' = trace s ++ new ∧ Forall (λ a, quiet a = true) new.

(** The action [a] starts a probe or a run of the generation of the
    context [c]. *)
Definition startOf (c : Ctx) (a : Action) : Prop :=
  a = GoUpdateWatcher c ∨ a = StartRunOnDevice c.

(** Reading a trace from its start: the generation whose probe or run was
    started and which has not been sent its cancellation yet, if any.  The
    reading fails ([None]) where a probe or a run starts while another
    generation is in that state. *)
Definition observe (live : option Ctx) (a : Action) : option (option Ctx) :=
  match a with
  | GoUpdateWatcher c | StartRunOnDevice c =>
      match live with
      | None => Some (Some c)
      | Some c' => if decide (c' = c) then Some (Some c) else None
      end
  | Cancel c =>
      match live with
      | Some c' => if decide (c' = c) then Some None else Some live
      | None => Some None
      end
  | _ => Some live
  end.

Fixpoint observeAll (live : option Ctx) (tr : list Action) : option (option Ctx) :=
  match tr with
  | [] => Some live
  | a :: tr' =>
      match observe live a with
      | Some live' => observeAll live' tr'
      | None => None
      end
  end.

#[local] Ltac quiet_same :=
  split_and!; [done..| exists []; by rewrite app_nil_r].
#[local] Ltac quiet_more :=
  split_and!; [done..| eexists; split; [done | by repeat constructor]].

(** * Facts about [watcher] *)

Section WatcherFacts.
Context `{Platform}.

Lemma evalSymlinksAll_Ok (ps qs : list string) :
  evalSymlinksAll ps = Ok qs →
  Forall2 (λ p q, filepath_EvalSymlinks p = Ok q) ps qs.
Proof.
  revert qs. induction ps as [|p ps IH]; intros qs; simpl.
  - intros [= <-]. constructor.
  - destruct (filepath_EvalSymlinks p) as [q|e] eqn:Hp; [|discriminate].
    destruct (evalSymlinksAll ps) as [qs'|e]; [|discriminate].
    intros [= <-]. constructor; [done|]. by apply IH.
Qed.

Lemma evalSymlinksAll_Err (ps : list string) (e : error) :
  evalSymlinksAll ps = Err e →
  ∃ p, p ∈ ps ∧ filepath_EvalSymlinks p = Err e.
Proof.
  induction ps as [|p ps IH]; simpl; [discriminate|].
  destruct (filepath_EvalSymlinks p) as [q|e'] eqn:Hp.
  - destruct (evalSymlinksAll ps) as [qs'|e'] eqn:Hps; [discriminate|].
    intros [= ->]. destruct IH as (p' & Hin & Hp'); [done|].
    exists p'. split; [by apply elem_of_cons; right | done].
  - intros [= ->]. exists p. split; [by apply elem_of_cons; left | done].
Qed.

Lemma evalSymlinksAll_fails (ps : list string) (p : string) :
  p ∈ ps → isOk (filepath_EvalSymlinks p) = false →
  ∃ e, evalSymlinksAll ps = Err e.
Proof.
  induction ps as [|p' ps IH]; [by intros ?%elem_of_nil|].
  intros [->|Hin]%elem_of_cons Hp; simpl.
  - destruct (filepath_EvalSymlinks p'); [discriminate|]. eauto.
  - destruct (filepath_EvalSymlinks p'); [|eauto].
    destruct (IH Hin Hp) as [e ->]. eauto.
Qed.

(** The second loop never touches [dirs]: it only reads it. *)
Lemma markPath_dirs (m : marking) (ps : list string) :
  dirs (marked (foldl markPath m ps)) = dirs (marked m).
Proof.
  revert m. induction ps as [|p ps IH]; intros m; simpl; [done|].
  by rewrite IH.
Qed.

Lemma markPath_paths (m : marking) (ps : list string) :
  paths (marked (foldl markPath m ps)) = list_to_set ps ∪ paths (marked m).
Proof.
  revert m. induction ps as [|p ps IH]; intros m; simpl.
  - set_solver.
  - rewrite IH. simpl. set_solver.
Qed.

Lemma markPath_candidates (m : marking) (ps : list string) :
  candidates (foldl markPath m ps) = list_to_set ps ∪ candidates m.
Proof.
  revert m. induction ps as [|p ps IH]; intros m; simpl.
  - set_solver.
  - rewrite IH. simpl. set_solver.
Qed.

Lemma markPath_candidateDirs (m : marking) (ps : list string) :
  candidateDirs (foldl markPath m ps)
  = list_to_set (filepath_Dir <$> ps) ∪ candidateDirs m.
Proof.
  revert m. induction ps as [|p ps IH]; intros m; simpl.
  - set_solver.
  - rewrite IH. simpl. set_solver.
Qed.

(** With [dirs] empty, every path costs one [Add], of its directory. *)
Lemma markPath_calls (m : marking) (ps : list string) :
  dirs (marked m) = ∅ →
  fsnotify.calls (notify (marked (foldl markPath m ps)))
  = fsnotify.calls (notify (marked m))
      ++ (fsnotify.CallAdd ∘ filepath_Dir <$> ps).
Proof.
  revert m. induction ps as [|p ps IH]; intros m Hd; simpl.
  - by rewrite app_nil_r.
  - rewrite IH by done. simpl. rewrite Hd.
    rewrite bool_decide_eq_false_2 by set_solver.
    unfold fsnotify.Add. destruct (inotify_add _); simpl; by rewrite <- app_assoc.
Qed.

Lemma sweepDir_paths (c : gset string) (w : watcher) (l : list string) :
  paths (foldl (sweepDir c) w l) = paths w.
Proof.
  revert w. induction l as [|d l IH]; intros w; simpl; [done|].
  rewrite IH. unfold sweepDir. by case_bool_decide.
Qed.

Lemma sweepDir_dirs (c : gset string) (w : watcher) (l : list string) (d : string) :
  d ∈ dirs (foldl (sweepDir c) w l) ↔ d ∈ dirs w ∧ (d ∈ c ∨ d ∉ l).
Proof.
  revert w. induction l as [|x l IH]; intros w; simpl.
  - set_solver.
  - rewrite IH. unfold sweepDir.
    destruct (decide (d = x)) as [->|Hne]; case_bool_decide; simpl; set_solver.
Qed.

(** After a call that succeeds, [paths] holds the resolved paths, and
    nothing else. *)
Lemma Watch_paths (w : watcher) (ps qs : list string) :
  evalSymlinksAll ps = Ok qs →
  paths (fst (Watch w ps)) = list_to_set qs.
Proof.
  intros Hq. unfold Watch. rewrite Hq. simpl.
  rewrite sweepDir_paths. simpl.
  rewrite markPath_paths, markPath_candidates. simpl.
  apply set_eq. intros p. rewrite elem_of_filter. set_solver.
Qed.

(** No call adds a directory to [dirs]. *)
Lemma Watch_dirs_subseteq (w : watcher) (ps : list string) :
  dirs (fst (Watch w ps)) ⊆ dirs w.
Proof.
  unfold Watch. destruct (evalSymlinksAll ps) as [qs|e]; simpl; [|done].
  intros d. rewrite sweepDir_dirs. simpl. rewrite markPath_dirs. simpl.
  tauto.
Qed.

Lemma Watch_dirs_empty (w : watcher) (ps : list string) :
  dirs w = ∅ → dirs (fst (Watch w ps)) = ∅.
Proof.
  intros Hd. pose proof (Watch_dirs_subseteq w ps). set_solver.
Qed.

(** With [dirs] empty, a call that succeeds is one [Add] per path. *)
Lemma Watch_calls (w : watcher) (ps qs : list string) :
  dirs w = ∅ →
  evalSymlinksAll ps = Ok qs →
  fsnotify.calls (notify (fst (Watch w ps)))
  = fsnotify.calls (notify w) ++ (fsnotify.CallAdd ∘ filepath_Dir <$> qs).
Proof.
  intros Hd Hq. unfold Watch. rewrite Hq. cbn [fst dirs].
  rewrite markPath_dirs. cbn [marked]. rewrite Hd, elements_empty.
  cbn [foldl notify]. by rewrite markPath_calls.
Qed.

Lemma Watch_error (w w' : watcher) (ps : list string) (e : error) :
  Watch w ps = (w', Some e) →
  w' = w ∧ evalSymlinksAll ps = Err e.
Proof.
  unfold Watch. destruct (evalSymlinksAll ps) as [qs|e'].
  - intros [= _ ?].
  - by intros [= <- <-].
Qed.

(** C10. [Watch] is atomic on error: when the symbolic links of one of the
    given paths cannot be resolved, [Watch] returns the error of such a
    path and the watcher is the one it was called on: [paths], [dirs] and
    the registrations with the OS are unchanged. *)
Theorem Watch_error_is_atomic (w : watcher) (ps : list string) (p : string) :
  p ∈ ps →
  isOk (filepath_EvalSymlinks p) = false →
  ∃ p' e, p' ∈ ps ∧ filepath_EvalSymlinks p' = Err e ∧ Watch w ps = (w, Some e).
Proof.
  intros Hin Hp.
  destruct (evalSymlinksAll_fails ps p Hin Hp) as [e He].
  destruct (evalSymlinksAll_Err ps e He) as (p' & Hin' & Hp').
  exists p', e. split_and!; [done..|].
  unfold Watch. by rewrite He.
Qed.

End WatcherFacts.

Lemma Watch_error_is_atomic_witness :
  ∃ p' e, p' ∈ ["pkg/c.toit"; "nope"]
    ∧ @filepath_EvalSymlinks Demo.platform p' = Err e
    ∧ @Watch Demo.platform (fst Scenario2.first) ["pkg/c.toit"; "nope"]
      = (fst Scenario2.first, Some e).
Proof.
  apply (@Watch_error_is_atomic Demo.platform (fst Scenario2.first)
           ["pkg/c.toit"; "nope"] "nope").
  - set_solver.
  - vm_compute. reflexivity.
Defined.

(** C1. On the code the invariant of the specification fails.  After
    [Watch("lib/a.toit", "lib/b.toit")] on a fresh watcher [paths] is as
    the specification says, but [dirs] is empty (not [{"lib"}]) and [Add]
    was called for ["lib"] twice; and after a later [Watch("pkg/c.toit")]
    the directory ["lib"] is still registered with the OS although no
    relevant path lies in it. *)
Theorem Watch_invariant_fails :
  snd Scenario2.first = None
  ∧ elements (paths (fst Scenario2.first)) = ["lib/a.toit"; "lib/b.toit"]
  ∧ elements (dirs (fst Scenario2.first)) = []
  ∧ fsnotify.calls (notify (fst Scenario2.first))
    = [fsnotify.CallAdd "lib"; fsnotify.CallAdd "lib"]
  ∧ snd Scenario2.later = None
  ∧ elements (paths (fst Scenario2.later)) = ["pkg/c.toit"]
  ∧ elements (dirs (fst Scenario2.later)) = []
  ∧ elements (fsnotify.watches (notify (fst Scenario2.later))) = ["lib"; "pkg"].
Proof. split_and!; vm_compute; reflexivity. Qed.

(** C5. Calling [Watch] again with the same paths leaves [paths] and [dirs]
    as they were, but it is not free of repeated registrations: the second
    call issues [Add("lib")] again, once per path. *)
Theorem Watch_twice_repeats_Add :
  snd Scenario2.again = None
  ∧ elements (paths (fst Scenario2.again)) = elements (paths (fst Scenario2.first))
  ∧ elements (dirs (fst Scenario2.again)) = elements (dirs (fst Scenario2.first))
  ∧ fsnotify.calls (notify (fst Scenario2.first))
    = [fsnotify.CallAdd "lib"; fsnotify.CallAdd "lib"]
  ∧ fsnotify.calls (notify (fst Scenario2.again))
    = fsnotify.calls (notify (fst Scenario2.first))
        ++ [fsnotify.CallAdd "lib"; fsnotify.CallAdd "lib"].
Proof. split_and!; vm_compute; reflexivity. Qed.

(** * Facts about the string functions and the scanner *)

Module GoStringsFacts.
Import GoStrings.

Lemma HasPrefix_spec (s p : bytes) : HasPrefix s p = true ↔ p `prefix_of` s.
Proof.
  revert s. induction p as [|c p IH]; intros s; simpl.
  - split; [intros _; apply prefix_nil | done].
  - destruct s as [|d s].
    + split; [done | intros Hp; by apply prefix_nil_inv in Hp].
    + rewrite andb_true_iff, IH, Ascii.eqb_eq. split.
      * intros [-> Hp]. by apply prefix_cons.
      * intros Hp. split; [by apply prefix_cons_inv_1 in Hp | by apply prefix_cons_inv_2 in Hp].
Qed.

Lemma HasSuffix_spec (s p : bytes) : HasSuffix s p = true ↔ p `suffix_of` s.
Proof.
  unfold HasSuffix. rewrite HasPrefix_spec. symmetry. apply suffix_prefix_reverse.
Qed.

Lemma leadingRune_Some (runes : list bytes) (s r : bytes) :
  leadingRune runes s = Some r → r ∈ runes ∧ r `prefix_of` s.
Proof.
  unfold leadingRune. intros [Hin Hp]%find_some.
  split; [by apply list_elem_of_In | by apply HasPrefix_spec].
Qed.

Lemma leadingRune_None (runes : list bytes) (s r : bytes) :
  leadingRune runes s = None → r ∈ runes → ¬ r `prefix_of` s.
Proof.
  unfold leadingRune. intros Hnone Hin Hp.
  apply list_elem_of_In in Hin.
  pose proof (find_none _ _ Hnone r Hin) as Hf. simpl in Hf.
  apply HasPrefix_spec in Hp. congruence.
Qed.

Lemma runsOf_app (runes : list bytes) (s t : bytes) :
  runsOf runes s → runsOf runes t → runsOf runes (s ++ t).
Proof.
  induction 1 as [|r s Hr Hs IH]; intros Ht; simpl; [done|].
  rewrite <- app_assoc. constructor; auto.
Qed.

Lemma runsOf_reverse (runes : list bytes) (s : bytes) :
  runsOf (reverse <$> runes) s → runsOf runes (reverse s).
Proof.
  induction 1 as [|r s Hr Hs IH]; [constructor|].
  rewrite reverse_app. apply runsOf_app; [done|].
  apply list_elem_of_fmap in Hr as (r' & -> & Hr').
  rewrite reverse_involutive.
  rewrite <- (app_nil_r r'). constructor; [done | constructor].
Qed.

(** What is dropped on the left is a run of runes. *)
Lemma trimLeftRunes_split (fuel : nat) (runes : list bytes) (s : bytes) :
  ∃ pre, s = pre ++ trimLeftRunes fuel runes s ∧ runsOf runes pre.
Proof.
  revert s. induction fuel as [|fuel IH]; intros s; simpl.
  - exists []. split; [done | constructor].
  - destruct (leadingRune runes s) as [r|] eqn:Hr.
    + destruct r as [|c r].
      * exists []. split; [done | constructor].
      * apply leadingRune_Some in Hr as [Hin [rest ->]].
        rewrite drop_app_length.
        destruct (IH rest) as (pre & Hrest & Hpre).
        exists ((c :: r) ++ pre). split.
        -- rewrite <- app_assoc. by rewrite <- Hrest.
        -- by constructor.
    + exists []. split; [done | constructor].
Qed.

(** With fuel for every byte, trimming stops only where no rune leads. *)
Lemma trimLeftRunes_done (fuel : nat) (runes : list bytes) (s : bytes) :
  [] ∉ runes → length s ≤ fuel →
  leadingRune runes (trimLeftRunes fuel runes s) = None.
Proof.
  intros Hne. revert s. induction fuel as [|fuel IH]; intros s Hlen; simpl.
  - destruct s; [|simpl in Hlen; lia].
    destruct (leadingRune runes []) as [r|] eqn:Hr; [|done].
    apply leadingRune_Some in Hr as [Hin Hp].
    apply prefix_nil_inv in Hp. by subst.
  - destruct (leadingRune runes s) as [r|] eqn:Hr; [|done].
    destruct r as [|c r].
    + apply leadingRune_Some in Hr as [Hin _]. done.
    + apply IH. rewrite length_drop. simpl. lia.
Qed.

Lemma spaceRunes_nonempty : [] ∉ spaceRunes.
Proof. vm_compute. intros Hin. repeat (apply elem_of_cons in Hin as [Hin|Hin]; [discriminate|]). by apply elem_of_nil in Hin. Qed.

Lemma TrimLeftSpace_spec (s : bytes) :
  (∃ pre, s = pre ++ TrimLeftSpace s ∧ spaces pre)
  ∧ ∀ r, r ∈ spaceRunes → ¬ r `prefix_of` TrimLeftSpace s.
Proof.
  split; [apply trimLeftRunes_split|].
  intros r Hr. eapply leadingRune_None; [|done].
  apply trimLeftRunes_done; [apply spaceRunes_nonempty | done].
Qed.

Lemma TrimRightSpace_spec (s : bytes) :
  (∃ post, s = TrimRightSpace s ++ post ∧ spaces post)
  ∧ ∀ r, r ∈ spaceRunes → ¬ r `suffix_of` TrimRightSpace s.
Proof.
  unfold TrimRightSpace. split.
  - destruct (trimLeftRunes_split (length s) (reverse <$> spaceRunes) (reverse s))
      as (pre & Hs & Hpre).
    exists (reverse pre). split; [|by apply runsOf_reverse].
    rewrite <- reverse_app. rewrite <- Hs. by rewrite reverse_involutive.
  - intros r Hr Hsuf. apply suffix_prefix_reverse in Hsuf.
    rewrite reverse_involutive in Hsuf.
    eapply leadingRune_None; [| |exact Hsuf].
    + apply trimLeftRunes_done; [|by rewrite length_reverse].
      intros (r' & Hr' & Hin)%list_elem_of_fmap.
      symmetry in Hr'. apply (f_equal reverse) in Hr'.
      rewrite reverse_involutive in Hr'. simpl in Hr'. subst r'.
      by apply spaceRunes_nonempty.
    + apply list_elem_of_fmap. eauto.
Qed.

(** [TrimSpace s] is [s] without a run of white space at each end, and
    neither starts nor ends with a space rune. *)
Lemma TrimSpace_spec (s : string) :
  let t := String.list_ascii_of_string (TrimSpace s) in
  (∃ pre post, String.list_ascii_of_string s = pre ++ t ++ post ∧ spaces pre ∧ spaces post)
  ∧ (∀ r, r ∈ spaceRunes → ¬ r `prefix_of` t)
  ∧ (∀ r, r ∈ spaceRunes → ¬ r `suffix_of` t).
Proof.
  unfold TrimSpace. simpl. rewrite String.list_ascii_of_string_of_list_ascii.
  set (b := String.list_ascii_of_string s).
  destruct (TrimLeftSpace_spec b) as [(pre & Hb & Hpre) Hlead].
  destruct (TrimRightSpace_spec (TrimLeftSpace b)) as [(post & Ht & Hpost) Htrail].
  split_and!.
  - exists pre, post. split_and!; [|done..]. by rewrite <- Ht.
  - intros r Hr Hp. apply (Hlead r Hr). rewrite Ht. by apply prefix_app_r.
  - done.
Qed.

(** [TrimSuffix s x] removes [x] from the end of [s], when it is there. *)
Lemma TrimSuffix_spec (s x : string) :
  let b := String.list_ascii_of_string s in
  let t := String.list_ascii_of_string (TrimSuffix s x) in
  let x' := String.list_ascii_of_string x in
  (b = t ++ x') ∨ (t = b ∧ ¬ x' `suffix_of` b).
Proof.
  unfold TrimSuffix. simpl.
  destruct (HasSuffix _ _) eqn:Hs.
  - left. apply HasSuffix_spec in Hs as [k Hk].
    rewrite String.list_ascii_of_string_of_list_ascii.
    generalize dependent (String.list_ascii_of_string s). intros b ->.
    by rewrite length_app, Nat.add_sub, take_app_length.
  - right. split; [done|]. intros Hsuf%HasSuffix_spec. congruence.
Qed.

End GoStringsFacts.

Module GoScannerFacts.
Import GoScanner.

Lemma unlines_cons (l : list byte) (lines : list (list byte)) :
  unlines (l :: lines) = l ++ newline :: unlines lines.
Proof. unfold unlines. simpl. by rewrite <- app_assoc. Qed.

(** Splitting loses nothing: the lines put together again are the input,
    with a newline after a last line that had none. *)
Lemma splitLines_unlines (cur data : list byte) :
  unlines (splitLines cur data) = reverse cur ++ data
  ∨ unlines (splitLines cur data) = reverse cur ++ data ++ [newline].
Proof.
  revert cur. induction data as [|b rest IH]; intros cur; cbn [splitLines].
  - destruct cur as [|c cur]; [by left|].
    right. by rewrite unlines_cons.
  - destruct (Byte.eqb b newline) eqn:Hb.
    + apply byte_dec_bl in Hb as ->. rewrite unlines_cons.
      destruct (IH []) as [-> | ->]; auto.
    + destruct (IH (b :: cur)) as [-> | ->];
        rewrite reverse_cons, <- app_assoc; auto.
Qed.

(** No line holds a newline. *)
Lemma splitLines_no_newline (cur data line : list byte) :
  newline ∉ cur → line ∈ splitLines cur data → newline ∉ line.
Proof.
  revert cur. induction data as [|b rest IH]; intros cur Hcur; simpl.
  - destruct cur as [|c cur]; [by intros ?%elem_of_nil|].
    intros ->%list_elem_of_singleton. by rewrite elem_of_reverse.
  - destruct (Byte.eqb b newline) eqn:Hb.
    + intros [-> | Hin]%elem_of_cons.
      * by rewrite elem_of_reverse.
      * apply (IH []); [apply not_elem_of_nil | done].
    + apply IH. apply eqb_false in Hb.
      intros [? | ?]%elem_of_cons; [congruence | done].
Qed.

Lemma whileFits_all (lines : list (list byte)) :
  Forall (λ l, fits l = true) lines → whileFits lines = lines.
Proof.
  induction 1 as [|l lines Hl _ IH]; simpl; [done|]. by rewrite Hl, IH.
Qed.

Lemma whileFits_prefix (lines : list (list byte)) :
  whileFits lines `prefix_of` lines
  ∧ Forall (λ l, fits l = true) (whileFits lines).
Proof.
  induction lines as [|l lines [IHp IHf]]; simpl.
  - split; [done | constructor].
  - destruct (fits l) eqn:Hl.
    + split; [by apply prefix_cons | by constructor].
    + split; [apply prefix_nil | constructor].
Qed.

(** The lines the scanner reaches: those that fit and come after lines
    that fit. *)
Lemma elem_of_whileFits (lines : list (list byte)) (l : list byte) :
  l ∈ whileFits lines
  ↔ ∃ before after, lines = before ++ l :: after
                    ∧ Forall (λ l, fits l = true) (before ++ [l]).
Proof.
  induction lines as [|x lines IH]; simpl.
  - split; [by intros ?%elem_of_nil|].
    intros (before & after & Hl & _). by destruct before.
  - destruct (fits x) eqn:Hx.
    + rewrite elem_of_cons, IH. split.
      * intros [-> | (before & after & -> & Hf)].
        -- exists [], lines. split; [done|]. by repeat constructor.
        -- exists (x :: before), after. split; [done|]. by constructor.
      * intros (before & after & Hl & Hf). destruct before as [|y before]; simpl in *.
        -- left. congruence.
        -- right. injection Hl as -> ->. apply Forall_cons in Hf as [_ Hf]. eauto.
    + split; [by intros ?%elem_of_nil|].
      intros (before & after & Hl & Hf). destruct before as [|y before]; simpl in *.
      * injection Hl as -> ->. apply Forall_cons in Hf as [Hf _]. congruence.
      * injection Hl as -> ->. apply Forall_cons in Hf as [Hf _]. congruence.
Qed.

(** When every line is shorter than [MaxScanTokenSize], the scanner
    yields every line. *)
Lemma scanLines_all (data : list byte) :
  Forall (λ l, fits l = true) (splitLines [] data) →
  scanLines data = dropCR <$> splitLines [] data.
Proof. intros Hf. unfold scanLines. by rewrite whileFits_all. Qed.

(** [dropCR] removes one carriage return from the end, when there is one. *)
Lemma dropCR_spec (line : list byte) :
  line = dropCR line ++ [carriageReturn]
  ∨ (dropCR line = line ∧ ¬ [carriageReturn] `suffix_of` line).
Proof.
  unfold dropCR. destruct (reverse line) as [|c r] eqn:Hr.
  - right. split; [done|]. intros [k Hk].
    apply (f_equal reverse) in Hk. rewrite Hr, reverse_app in Hk. done.
  - apply (f_equal reverse) in Hr. rewrite reverse_involutive, reverse_cons in Hr.
    destruct (Byte.eqb c carriageReturn) eqn:Hc.
    + left. apply byte_dec_bl in Hc as ->. done.
    + right. split; [done|]. intros [k Hk]. rewrite Hk in Hr.
      apply app_inj_tail in Hr as [_ Hr]. apply eqb_false in Hc. congruence.
Qed.

End GoScannerFacts.

(** * Facts about [parseDependeniesToDirs] *)

Section ParserFacts.
Context `{Platform}.

Lemma dependencyOfLine_stripped (token : list byte) :
  strippedFrom (GoScanner.Text token) (dependencyOfLine token).
Proof.
  unfold dependencyOfLine.
  set (line := GoScanner.Text token).
  destruct (GoStringsFacts.TrimSpace_spec line) as ((pre & post & Hline & Hpre & Hpost) & Hl & Hr).
  exists pre, (String.list_ascii_of_string (GoStrings.TrimSpace line)), post.
  split_and!; [done..| |].
  - intros r Hin. split; [by apply Hl | by apply Hr].
  - destruct (GoStringsFacts.TrimSuffix_spec (GoStrings.TrimSpace line) ":") as [Hs | [Hs Hn]].
    + by left.
    + right. by rewrite Hs.
Qed.

Lemma recordDependency_fold (m : gset string) (tokens : list (list byte)) (p : string) :
  p ∈ foldl recordDependency m tokens
  ↔ p ∈ m ∨ ∃ token, token ∈ tokens ∧ dependencyOfLine token = p ∧ statSucceeds p = true.
Proof.
  revert m. induction tokens as [|t tokens IH]; intros m; simpl.
  - split; [by left|]. intros [? | (t & Hin & _)]; [done|]. by apply elem_of_nil in Hin.
  - rewrite IH. unfold recordDependency. split.
    + intros [Hm | (t' & Hin & Hp & Hs)].
      * destruct (statSucceeds (dependencyOfLine t)) eqn:Hst; [|by left].
        apply elem_of_union in Hm as [->%elem_of_singleton | Hm]; [|by left].
        right. exists t. split_and!; [apply elem_of_cons; by left | done..].
      * right. exists t'. split_and!; [apply elem_of_cons; by right | done..].
    + intros [Hm | (t' & Hin & Hp & Hs)].
      * left. destruct (statSucceeds (dependencyOfLine t)); set_solver.
      * apply elem_of_cons in Hin as [-> | Hin].
        -- left. rewrite Hp, Hs. set_solver.
        -- right. eauto.
Qed.

(** The carriage return [dropCR] removes is white space: what a token
    becomes is the line itself without the white space around it and
    without one colon. *)
Lemma dependencyOfLine_dropCR_stripped (line : list byte) :
  strippedFrom (GoScanner.Text line) (dependencyOfLine (GoScanner.dropCR line)).
Proof.
  destruct (GoScannerFacts.dropCR_spec line) as [Hline | [-> _]];
    [|apply dependencyOfLine_stripped].
  destruct (dependencyOfLine_stripped (GoScanner.dropCR line))
    as (pre & core & post & Htok & Hpre & Hpost & Hcore & Hp).
  exists pre, core, (post ++ [ascii_of_byte GoScanner.carriageReturn]).
  split_and!; [|done| |done..].
  - rewrite Hline at 1. unfold GoScanner.Text, String.string_of_list_byte in *.
    rewrite String.list_ascii_of_string_of_list_ascii in *.
    rewrite List.map_app, Htok. simpl. by rewrite <- !app_assoc.
  - apply GoStringsFacts.runsOf_app; [done|].
    rewrite <- (app_nil_r [_]). constructor; [|constructor].
    vm_compute. do 4 right. left.
Qed.

(** C6, as the code has it.  For every byte sequence [b], the result
    has no duplicates and holds exactly the paths [p] that exist (for
    which [os.Stat] succeeds) and that a line of [b] becomes once the white
    space around it and one trailing colon are stripped, where the line and
    every line before it are shorter than 64 KiB: the scanner stops at the
    first line that is not.  When every line of [b] is shorter, every line
    counts.  The lines are those of [b]: none holds a newline, and put
    together again they are [b], with a newline after a last line that had
    none. *)
Theorem parseDependeniesToDirs_spec (b : list byte) :
  NoDup (parseDependeniesToDirs b)
  ∧ (∀ p, p ∈ parseDependeniesToDirs b
          ↔ ∃ before line after,
              GoScanner.splitLines [] b = before ++ line :: after
              ∧ Forall (λ l, GoScanner.fits l = true) (before ++ [line])
              ∧ dependencyOfLine (GoScanner.dropCR line) = p
              ∧ statSucceeds p = true)
  ∧ (Forall (λ l, GoScanner.fits l = true) (GoScanner.splitLines [] b) →
     ∀ p, p ∈ parseDependeniesToDirs b
          ↔ ∃ line, line ∈ GoScanner.splitLines [] b
              ∧ dependencyOfLine (GoScanner.dropCR line) = p
              ∧ statSucceeds p = true)
  ∧ (∀ line, strippedFrom (GoScanner.Text line) (dependencyOfLine (GoScanner.dropCR line)))
  ∧ (GoScanner.unlines (GoScanner.splitLines [] b) = b
     ∨ GoScanner.unlines (GoScanner.splitLines [] b) = b ++ [GoScanner.newline])
  ∧ (∀ line, line ∈ GoScanner.splitLines [] b → GoScanner.newline ∉ line).
Proof.
  unfold parseDependeniesToDirs, GoScanner.scanLines. split_and!.
  - apply NoDup_elements.
  - intros p. rewrite elem_of_elements, recordDependency_fold. split.
    + intros [Hin | (t & Hin & Hp & Hs)]; [set_solver|].
      apply list_elem_of_fmap in Hin as (l & -> & Hin).
      apply GoScannerFacts.elem_of_whileFits in Hin as (before & after & Hl & Hf).
      exists before, l, after. done.
    + intros (before & l & after & Hl & Hf & Hp & Hs).
      right. exists (GoScanner.dropCR l). split_and!; [|done..].
      apply list_elem_of_fmap. exists l. split; [done|].
      apply GoScannerFacts.elem_of_whileFits. eauto.
  - intros Hf p. rewrite (GoScannerFacts.whileFits_all _ Hf).
    rewrite elem_of_elements, recordDependency_fold. split.
    + intros [Hin | (t & Hin & Hp & Hs)]; [set_solver|].
      apply list_elem_of_fmap in Hin as (l & -> & Hin). eauto.
    + intros (l & Hin & Hp & Hs). right. exists (GoScanner.dropCR l).
      split_and!; [|done..]. apply list_elem_of_fmap. eauto.
  - apply dependencyOfLine_dropCR_stripped.
  - apply (GoScannerFacts.splitLines_unlines [] b).
  - intros line. apply GoScannerFacts.splitLines_no_newline, not_elem_of_nil.
Qed.

End ParserFacts.

(** Scenario 2: the report [lib/a.toit:], [lib/b.toit], both files
    existing, gives those two paths. *)
Example parseDependeniesToDirs_scenario2 :
  @parseDependeniesToDirs Demo.platform (Demo.report ["lib/a.toit:"; "lib/b.toit"])
  = ["lib/a.toit"; "lib/b.toit"].
Proof. vm_compute. reflexivity. Qed.

(** Lines that name no existing path are dropped, and a path named twice
    is kept once. *)
Example parseDependeniesToDirs_drops :
  @parseDependeniesToDirs Demo.platform
    (Demo.report ["  lib/a.toit: "; "gone.toit"; ""; "lib/a.toit"; "main.toit:"])
  ≡ₚ ["lib/a.toit"; "main.toit"].
Proof. vm_compute. apply perm_swap || reflexivity. Qed.

(** C6 as the specification has it fails for a report with a long line.
    The third line of [LongLine.reportBytes] is [lib/b.toit:], the file
    [lib/b.toit] exists, and it is not among the dependencies: the second
    line has 65536 bytes, the scanner stops there, and its error is not
    looked at. *)
Lemma parseDependeniesToDirs_misses_after_long_line :
  GoScanner.splitLines [] LongLine.reportBytes
  = [String.list_byte_of_string "lib/a.toit:"; LongLine.line;
     String.list_byte_of_string "lib/b.toit:"]
  ∧ GoScanner.fits LongLine.line = false
  ∧ dependencyOfLine (GoScanner.dropCR (String.list_byte_of_string "lib/b.toit:"))
    = "lib/b.toit"
  ∧ @statSucceeds Demo.platform "lib/b.toit" = true
  ∧ @parseDependeniesToDirs Demo.platform LongLine.reportBytes = ["lib/a.toit"].
Proof.
  split_and!.
  - vm_cast_no_check (@eq_refl (list (list byte))
      [String.list_byte_of_string "lib/a.toit:"; LongLine.line;
       String.list_byte_of_string "lib/b.toit:"]).
  - vm_compute. reflexivity.
  - vm_compute. reflexivity.
  - vm_compute. reflexivity.
  - vm_compute. reflexivity.
Qed.

(** * Facts about [updateWatcher] *)

Section ProbeFacts.
Context `{Platform}.
Variable entrypoint : string.

(** The scope a probe is started with plays no part in what it does. *)
Lemma updateWatcher_ignores_runCtx (c c' : Ctx) (io : ProbeIO) (s : State) :
  updateWatcher entrypoint c io s = updateWatcher entrypoint c' io s.
Proof. reflexivity. Qed.

Lemma Watch_singleton (w : watcher) (p : string) :
  Watch w [p]
  = match filepath_EvalSymlinks p with
    | Ok q => (fst (Watch w [p]), None)
    | Err e => (w, Some e)
    end.
Proof.
  unfold Watch. simpl. by destruct (filepath_EvalSymlinks p).
Qed.

Lemma CountPaths_singleton (w : watcher) (p q : string) :
  filepath_EvalSymlinks p = Ok q →
  paths (fst (Watch w [p])) = {[q]} ∧ CountPaths (fst (Watch w [p])) = 1.
Proof.
  intros Hq.
  assert (paths (fst (Watch w [p])) = {[q]}) as Hp.
  { rewrite (Watch_paths w [p] [q]); [set_solver|]. simpl. by rewrite Hq. }
  split; [done|]. unfold CountPaths. rewrite Hp. apply size_singleton.
Qed.

(** C4, as the code has it.  When the analyzer fails: with a path in the
    watch set already, [updateWatcher] changes nothing; with none, it calls
    [Watch] with the one path [filepath.Dir(entrypoint)].  If that path
    resolves, the watch set becomes that one path; if it does not, the
    error of [Watch] is printed and the watch set stays empty. *)
Theorem updateWatcher_compile_error
    (runCtx : Ctx) (io : ProbeIO) (s : State) (tmp : string) (e : error) :
  createTemp io = Ok tmp →
  ToitAnalyze_Run s rootCtx io = Some e →
  (0 < CountPaths (shared s) → updateWatcher entrypoint runCtx io s = s)
  ∧ (CountPaths (shared s) = 0 →
     shared (updateWatcher entrypoint runCtx io s)
       = fst (Watch (shared s) [filepath_Dir entrypoint])
     ∧ match filepath_EvalSymlinks (filepath_Dir entrypoint) with
       | Ok dir =>
           paths (shared (updateWatcher entrypoint runCtx io s)) = {[dir]}
           ∧ CountPaths (shared (updateWatcher entrypoint runCtx io s)) = 1
           ∧ trace (updateWatcher entrypoint runCtx io s) = trace s
       | Err e' =>
           shared (updateWatcher entrypoint runCtx io s) = shared s
           ∧ trace (updateWatcher entrypoint runCtx io s)
             = trace s ++ [Println ("Failed to update watcher:  " +:+ e')]
       end).
Proof.
  intros Htmp Hrun. unfold updateWatcher. rewrite Htmp, Hrun. split.
  - intros Hpos. by rewrite bool_decide_eq_true_2.
  - intros Hzero. rewrite bool_decide_eq_false_2 by lia.
    unfold applyPaths. rewrite Watch_singleton.
    destruct (filepath_EvalSymlinks (filepath_Dir entrypoint)) as [dir|e'] eqn:Hdir.
    + simpl. split; [done|].
      destruct (CountPaths_singleton (shared s) _ _ Hdir) as [Hp Hc].
      by rewrite Hp, Hc.
    + simpl. done.
Qed.

End ProbeFacts.

Lemma updateWatcher_compile_error_witness :
  (0 < CountPaths (shared Runs.start) →
   @updateWatcher Demo.platform "main.toit" 1 Demo.compileError Runs.start = Runs.start)
  ∧ (CountPaths (shared Runs.start) = 0 →
     shared (@updateWatcher Demo.platform "main.toit" 1 Demo.compileError Runs.start)
       = fst (@Watch Demo.platform (shared Runs.start) [@filepath_Dir Demo.platform "main.toit"])
     ∧ match @filepath_EvalSymlinks Demo.platform (@filepath_Dir Demo.platform "main.toit") with
       | Ok dir =>
           paths (shared (@updateWatcher Demo.platform "main.toit" 1 Demo.compileError Runs.start))
             = {[dir]}
           ∧ CountPaths (shared (@updateWatcher Demo.platform "main.toit" 1 Demo.compileError Runs.start)) = 1
           ∧ trace (@updateWatcher Demo.platform "main.toit" 1 Demo.compileError Runs.start)
             = trace Runs.start
       | Err e' =>
           shared (@updateWatcher Demo.platform "main.toit" 1 Demo.compileError Runs.start)
             = shared Runs.start
           ∧ trace (@updateWatcher Demo.platform "main.toit" 1 Demo.compileError Runs.start)
             = trace Runs.start ++ [Println ("Failed to update watcher:  " +:+ e')]
       end).
Proof.
  apply (@updateWatcher_compile_error Demo.platform "main.toit" 1 Demo.compileError
           Runs.start "/tmp/123.txt" "exit status 1"); reflexivity.
Defined.

(** C4 as the specification has it fails where the directory of the
    entrypoint does not resolve: the analyzer fails, the watch set is empty,
    and after [updateWatcher] it is empty still. *)
Lemma fallback_can_leave_watch_set_empty :
  createTemp Demo.compileError = Ok "/tmp/123.txt"
  ∧ ToitAnalyze_Run Runs.start rootCtx Demo.compileError = Some "exit status 1"
  ∧ CountPaths (shared Runs.start) = 0
  ∧ CountPaths (shared (@updateWatcher Demo.vanished "main.toit" 1 Demo.compileError Runs.start)) = 0
  ∧ trace (@updateWatcher Demo.vanished "main.toit" 1 Demo.compileError Runs.start)
    = trace Runs.start
        ++ [Println "Failed to update watcher:  lstat .: no such file or directory"].
Proof. vm_compute. repeat split; reflexivity. Qed.

(** C2. A generation's probe is not stopped by the generation's scope.  In
    the run [Runs.twoEdits] the second edit cancels the scope 2 (the scope
    of the command line is not cancelled); the probe started with scope 2
    completes afterwards, and its result is applied: the watch set changes
    from [main.toit] to what that probe found, and nothing is printed. *)
Theorem cancelled_probe_still_updates :
  Cancel 2 ∈ trace Runs.beforeStaleProbe
  ∧ ctxDone Runs.beforeStaleProbe 2 = true
  ∧ ctxDone Runs.beforeStaleProbe rootCtx = false
  ∧ elements (paths (shared Runs.beforeStaleProbe)) = ["main.toit"]
  ∧ elements (paths (shared Runs.afterStaleProbe)) = ["main.toit"; "lib/a.toit"]
  ∧ trace Runs.afterStaleProbe = trace Runs.beforeStaleProbe.
Proof.
  split_and!; try (vm_compute; reflexivity).
  apply list_elem_of_In. vm_compute. do 10 right. by left.
Qed.


(** * Registration errors *)

Section RegistrationErrors.
Variable P : Platform.
Variables add rm add' rm' : string → option error.

Lemma markPath_sameButWatches (m1 m2 : marking) (p : string) :
  sameButWatches (marked m1) (marked m2) →
  candidateDirs m1 = candidateDirs m2 →
  candidates m1 = candidates m2 →
  sameButWatches (marked (@markPath (withRegistrationErrors P add rm) m1 p))
                 (marked (@markPath (withRegistrationErrors P add' rm') m2 p))
  ∧ candidateDirs (@markPath (withRegistrationErrors P add rm) m1 p)
    = candidateDirs (@markPath (withRegistrationErrors P add' rm') m2 p)
  ∧ candidates (@markPath (withRegistrationErrors P add rm) m1 p)
    = candidates (@markPath (withRegistrationErrors P add' rm') m2 p).
Proof.
  intros (Hd & Hp & Hc) Hcd Hcs. unfold markPath, sameButWatches. simpl.
  rewrite Hd, Hp, Hcd, Hcs. split_and!; try done.
  case_bool_decide; [done|].
  unfold fsnotify.Add. simpl. destruct (add _), (add' _); simpl; by rewrite Hc.
Qed.

Lemma markPaths_sameButWatches (ps : list string) (m1 m2 : marking) :
  sameButWatches (marked m1) (marked m2) →
  candidateDirs m1 = candidateDirs m2 →
  candidates m1 = candidates m2 →
  sameButWatches (marked (foldl (@markPath (withRegistrationErrors P add rm)) m1 ps))
                 (marked (foldl (@markPath (withRegistrationErrors P add' rm')) m2 ps))
  ∧ candidateDirs (foldl (@markPath (withRegistrationErrors P add rm)) m1 ps)
    = candidateDirs (foldl (@markPath (withRegistrationErrors P add' rm')) m2 ps)
  ∧ candidates (foldl (@markPath (withRegistrationErrors P add rm)) m1 ps)
    = candidates (foldl (@markPath (withRegistrationErrors P add' rm')) m2 ps).
Proof.
  revert m1 m2. induction ps as [|p ps IH]; intros m1 m2 Hw Hcd Hcs; simpl; [done|].
  destruct (markPath_sameButWatches m1 m2 p Hw Hcd Hcs) as (? & ? & ?).
  by apply IH.
Qed.

Lemma sweepDirs_sameButWatches (c : gset string) (l : list string) (w1 w2 : watcher) :
  sameButWatches w1 w2 →
  sameButWatches (foldl (@sweepDir (withRegistrationErrors P add rm) c) w1 l)
                 (foldl (@sweepDir (withRegistrationErrors P add' rm') c) w2 l).
Proof.
  revert w1 w2. induction l as [|d l IH]; intros w1 w2 Hw; simpl; [done|].
  apply IH. destruct Hw as (Hd & Hp & Hc). unfold sweepDir.
  case_bool_decide; [done|]. unfold sameButWatches, fsnotify.Remove. simpl.
  rewrite Hd, Hp. split_and!; try done.
  do 2 case_bool_decide; simpl; by rewrite Hc.
Qed.

(** [Watch] returns the same error, and leaves the same [paths], [dirs]
    and history of calls, whatever the OS answers to [Add] and [Remove]. *)
Lemma Watch_sameButWatches (w1 w2 : watcher) (ps : list string) :
  sameButWatches w1 w2 →
  sameButWatches (fst (@Watch (withRegistrationErrors P add rm) w1 ps))
                 (fst (@Watch (withRegistrationErrors P add' rm') w2 ps))
  ∧ snd (@Watch (withRegistrationErrors P add rm) w1 ps)
    = snd (@Watch (withRegistrationErrors P add' rm') w2 ps).
Proof.
  intros Hw. unfold Watch.
  change (@evalSymlinksAll (withRegistrationErrors P add' rm') ps)
    with (@evalSymlinksAll (withRegistrationErrors P add rm) ps).
  destruct (evalSymlinksAll ps) as [qs|e]; simpl; [|done].
  split; [|done].
  destruct (markPaths_sameButWatches qs
              {| marked := w1; candidateDirs := ∅; candidates := ∅ |}
              {| marked := w2; candidateDirs := ∅; candidates := ∅ |})
    as (Hm & Hcd & Hcs); [done..|].
  rewrite Hcd, Hcs. destruct Hm as (Hd & Hp & Hc). rewrite Hd.
  apply sweepDirs_sameButWatches. unfold sameButWatches. simpl.
  by rewrite Hp.
Qed.

Variable entrypoint : string.

Lemma applyPaths_sameButRegistered (ps : list string) (s1 s2 : State) :
  sameButRegistered s1 s2 →
  sameButRegistered (@applyPaths (withRegistrationErrors P add rm) entrypoint ps s1)
                    (@applyPaths (withRegistrationErrors P add' rm') entrypoint ps s2).
Proof.
  intros [Hw ->]. unfold applyPaths.
  change (@filepath_Dir (withRegistrationErrors P add' rm')) with
    (@filepath_Dir (withRegistrationErrors P add rm)).
  set (ps' := match ps with [] => _ | _ => _ end).
  destruct (Watch_sameButWatches (shared s1) (shared s2) ps' Hw) as [Hw' He].
  simpl in He |- *.
  destruct (@Watch (withRegistrationErrors P add rm) (shared s1) ps') as [w1 e1].
  destruct (@Watch (withRegistrationErrors P add' rm') (shared s2) ps') as [w2 e2].
  simpl in *. subst e2. destruct e1; split; done.
Qed.

Lemma updateWatcher_sameButRegistered (c : Ctx) (io : ProbeIO) (s1 s2 : State) :
  sameButRegistered s1 s2 →
  sameButRegistered (@updateWatcher (withRegistrationErrors P add rm) entrypoint c io s1)
                    (@updateWatcher (withRegistrationErrors P add' rm') entrypoint c io s2).
Proof.
  intros Hs. unfold updateWatcher.
  change (@parseDependeniesToDirs (withRegistrationErrors P add' rm')) with
    (@parseDependeniesToDirs (withRegistrationErrors P add rm)).
  assert (ToitAnalyze_Run s2 rootCtx io = ToitAnalyze_Run s1 rootCtx io) as ->.
  { destruct Hs as [_ ->]. done. }
  assert (CountPaths (shared s2) = CountPaths (shared s1)) as ->.
  { destruct Hs as [(_ & Hp & _) _]. unfold CountPaths. by rewrite Hp. }
  destruct (createTemp io); [|by apply applyPaths_sameButRegistered].
  destruct (ToitAnalyze_Run s1 rootCtx io).
  - case_bool_decide; [done | by apply applyPaths_sameButRegistered].
  - destruct (readFile io); by apply applyPaths_sameButRegistered.
Qed.

Lemma step_sameButRegistered (now : Z) (st : Step) (s1 s2 : State) :
  sameButRegistered s1 s2 →
  sameButRegistered (@step (withRegistrationErrors P add rm) entrypoint now s1 st)
                    (@step (withRegistrationErrors P add' rm') entrypoint now s2 st).
Proof.
  intros Hs. destruct st as [sel | c io | c r |]; simpl.
  - destruct Hs as [Hw ->]. simpl. destruct (running s1); [|done].
    destruct Hw as (Hd & Hp & Hc).
    destruct sel; simpl; try done.
    + rewrite Hp. case_bool_decide; [|done].
      destruct (isWrite _); [|done]. destruct (fired s1); done.
    + case_bool_decide; done.
  - assert (pendingProbes s2 = pendingProbes s1) as -> by (destruct Hs as [_ ->]; done).
    case_bool_decide; [|done].
    apply updateWatcher_sameButRegistered. destruct Hs as [Hw ->]. done.
  - assert (pendingRuns s2 = pendingRuns s1) as -> by (destruct Hs as [_ ->]; done).
    case_bool_decide; [|done].
    destruct Hs as [Hw ->]. unfold runOnDevice. destruct r; done.
  - destruct Hs as [Hw ->]. done.
Qed.

Lemma exec_sameButRegistered (sched : Schedule) (s1 s2 : State) :
  sameButRegistered s1 s2 →
  sameButRegistered (@exec (withRegistrationErrors P add rm) entrypoint s1 sched)
                    (@exec (withRegistrationErrors P add' rm') entrypoint s2 sched).
Proof.
  revert s1 s2. induction sched as [|[t st] sched IH]; intros s1 s2 Hs; simpl; [done|].
  apply IH. by apply step_sameButRegistered.
Qed.

(** C8, as the code has it.  Whatever the OS answers to the registration
    and unregistration of directories, every run prints the same lines,
    makes the same calls, keeps the same watch set and leaves the loop
    running or not alike: the errors of [Add] and [Remove] are dropped, not
    reported, and they stop neither [Watch] nor the loop. *)
Theorem registration_errors_are_dropped (s : State) (sched : Schedule) :
  trace (@exec (withRegistrationErrors P add rm) entrypoint s sched)
    = trace (@exec (withRegistrationErrors P add' rm') entrypoint s sched)
  ∧ running (@exec (withRegistrationErrors P add rm) entrypoint s sched)
    = running (@exec (withRegistrationErrors P add' rm') entrypoint s sched)
  ∧ sameButWatches
      (shared (@exec (withRegistrationErrors P add rm) entrypoint s sched))
      (shared (@exec (withRegistrationErrors P add' rm') entrypoint s sched)).
Proof.
  destruct (exec_sameButRegistered sched s s) as [Hw Hs].
  - split; [done | by destruct s].
  - rewrite Hs. done.
Qed.

End RegistrationErrors.

(** C8 as the specification has it fails: the OS refuses the registration
    of [.] with "permission denied", the probe's [Watch] succeeds all the
    same, and nothing is printed. *)
Lemma registration_error_is_not_reported :
  @inotify_add Runs.denied "." = Some "permission denied"
  ∧ snd (@fsnotify.Add Runs.denied (notify (shared Runs.start)) ".") = Some "permission denied"
  ∧ fsnotify.calls (notify (shared
      (@step Runs.denied "main.toit" 5%Z Runs.start (Probe 1 (Demo.analyzed ["main.toit"])))))
    = [fsnotify.CallAdd "."]
  ∧ trace (@step Runs.denied "main.toit" 5%Z Runs.start (Probe 1 (Demo.analyzed ["main.toit"])))
    = trace Runs.start
  ∧ trace Runs.start = [WithCancel 1; GoUpdateWatcher 1; StartRunOnDevice 1].
Proof. vm_compute. repeat split; reflexivity. Qed.

(** * Facts about the loop *)

Section LoopFacts.
Context `{Platform}.
Variable entrypoint : string.

Lemma quietStep_refl (s : State) : quietStep s s.
Proof. split_and!; [done..|]. exists []. by rewrite app_nil_r. Qed.

Lemma quietStep_applyPaths (ps : list string) (s : State) :
  quietStep s (applyPaths entrypoint ps s)
  ∧ fired (applyPaths entrypoint ps s) = fired s
  ∧ tickerNext (applyPaths entrypoint ps s) = tickerNext s.
Proof.
  unfold applyPaths. destruct (Watch _ _) as [w [e|]]; simpl.
  - split_and!; [|done..]. split_and!; [done..|].
    eexists. split; [done|]. by repeat constructor.
  - split_and!; [|done..]. split_and!; [done..|].
    exists []. by rewrite app_nil_r.
Qed.

Lemma quietStep_updateWatcher (c : Ctx) (io : ProbeIO) (s : State) :
  quietStep s (updateWatcher entrypoint c io s)
  ∧ fired (updateWatcher entrypoint c io s) = fired s
  ∧ tickerNext (updateWatcher entrypoint c io s) = tickerNext s.
Proof.
  unfold updateWatcher.
  destruct (createTemp io); [|apply quietStep_applyPaths].
  destruct (ToitAnalyze_Run s rootCtx io).
  - case_bool_decide; [|apply quietStep_applyPaths].
    split_and!; [apply quietStep_refl | done..].
  - destruct (readFile io); apply quietStep_applyPaths.
Qed.

(** The only step that starts or cancels anything is the accepted write. *)
Lemma step_accept_or_quiet (now : Z) (s : State) (st : Step) :
  (∃ name, step entrypoint now s st = accept now name s
           ∧ running s = true ∧ fired s = false)
  ∨ quietStep s (step entrypoint now s st).
Proof.
  destruct st as [sel | c io | c r |]; simpl.
  - destruct (running s) eqn:Hrun; [|right; quiet_same].
    destruct sel; simpl.
    + case_bool_decide; [|right; quiet_same].
      destruct (isWrite _); [|right; quiet_same].
      destruct (fired s) eqn:Hf; [right; quiet_same|].
      left. eauto.
    + right. quiet_more.
    + right. quiet_same.
    + right. quiet_more.
    + right. quiet_more.
    + right. case_bool_decide; [quiet_more | quiet_same].
  - right. case_bool_decide; [|quiet_same].
    destruct (quietStep_updateWatcher c io (withoutProbe c s)) as (Hq & _ & _).
    exact Hq.
  - right. case_bool_decide; [|quiet_same].
    unfold runOnDevice. destruct r; [quiet_more | quiet_same].
  - right. quiet_same.
Qed.

(** While the window is open, a step that is no tick keeps it open. *)
Lemma step_keeps_window (now : Z) (s : State) (st : Step) :
  fired s = true → st ≠ Loop RecvTick →
  fired (step entrypoint now s st) = true
  ∧ tickerNext (step entrypoint now s st) = tickerNext s
  ∧ quietStep s (step entrypoint now s st).
Proof.
  intros Hf Hst.
  destruct (step_accept_or_quiet now s st) as [(name & _ & _ & Hf') | Hq]; [congruence|].
  split_and!; [| |done].
  - destruct st as [sel | c io | c r |]; simpl.
    + destruct (running s); [|done]. destruct sel; simpl; try done.
      * case_bool_decide; [|done]. destruct (isWrite _); [|done]. by rewrite Hf.
      * by case_bool_decide.
    + case_bool_decide; [|done].
      destruct (quietStep_updateWatcher c io (withoutProbe c s)) as (_ & -> & _). done.
    + case_bool_decide; [|done]. unfold runOnDevice. by destruct r.
    + done.
  - destruct st as [sel | c io | c r |]; simpl.
    + destruct (running s); [|done]. destruct sel; simpl; try done.
      * case_bool_decide; [|done]. destruct (isWrite _); [|done]. by rewrite Hf.
      * by case_bool_decide.
    + case_bool_decide; [|done].
      destruct (quietStep_updateWatcher c io (withoutProbe c s)) as (_ & _ & ->). done.
    + case_bool_decide; [|done]. unfold runOnDevice. by destruct r.
    + done.
Qed.

Lemma exec_cons (s : State) (t : Z) (st : Step) (sched : Schedule) :
  exec entrypoint s ((t, st) :: sched) = exec entrypoint (step entrypoint t s st) sched.
Proof. reflexivity. Qed.

Lemma exec_app (s : State) (sched sched' : Schedule) :
  exec entrypoint s (sched ++ sched') = exec entrypoint (exec entrypoint s sched) sched'.
Proof. unfold exec. apply foldl_app. Qed.

Lemma filter_startsRun_quiet (new : list Action) :
  Forall (λ a, quiet a = true) new → List.filter startsRun new = [].
Proof.
  induction 1 as [|a new Ha _ IH]; simpl; [done|].
  destruct a; simpl in *; try discriminate; done.
Qed.

Lemma quietStep_generations (s s' : State) :
  quietStep s s' → generations s' = generations s.
Proof.
  intros (_ & _ & new & Ht & Hq). unfold generations.
  rewrite Ht, List.filter_app, (filter_startsRun_quiet new Hq).
  by rewrite app_nil_r.
Qed.

Lemma accept_generations (now : Z) (name : string) (s : State) :
  generations (accept now name s) = S (generations s).
Proof.
  unfold generations, accept. simpl.
  rewrite List.filter_app, length_app. simpl. lia.
Qed.

Lemma wellTimed_cons (now t : Z) (s : State) (st : Step) (rest : Schedule) :
  (now ≤ t)%Z →
  (st = Loop RecvTick → (tickerNext s ≤ t)%Z) →
  wellTimed entrypoint t (step entrypoint t s st) rest →
  wellTimed entrypoint now s ((t, st) :: rest).
Proof. simpl. auto. Qed.

Lemma wellTimed_later (sched : Schedule) (now : Z) (s : State) :
  wellTimed entrypoint now s sched →
  Forall (λ ts, (now ≤ fst ts)%Z) sched.
Proof.
  revert now s. induction sched as [|[t st] sched IH]; intros now s; simpl.
  - constructor.
  - intros (Hle & _ & Hrest). constructor; [done|].
    eapply Forall_impl; [by eapply IH|]. simpl. intros ts ?. lia.
Qed.

Lemma wellTimed_before_last (mid : Schedule) (now t2 : Z) (s : State) (st : Step) :
  wellTimed entrypoint now s (mid ++ [(t2, st)]) →
  Forall (λ ts, (fst ts ≤ t2)%Z) mid.
Proof.
  revert now s. induction mid as [|[t x] mid IH]; intros now s; simpl.
  - constructor.
  - intros (_ & _ & Hrest). constructor; [|by eapply IH].
    apply wellTimed_later in Hrest.
    rewrite Forall_app, Forall_singleton in Hrest.
    destruct Hrest as [_ Hlast]. simpl in *. lia.
Qed.

(** While the window is open, steps that are no ticks keep it open and
    start nothing, at whatever time they are taken. *)
Lemma window_stays_open_without_tick (sched : Schedule) (s : State) :
  Forall (λ ts, snd ts ≠ Loop RecvTick) sched →
  fired s = true →
  fired (exec entrypoint s sched) = true
  ∧ tickerNext (exec entrypoint s sched) = tickerNext s
  ∧ generations (exec entrypoint s sched) = generations s.
Proof.
  revert s. induction sched as [|[t st] sched IH]; intros s Hno Hf; [done|].
  rewrite Forall_cons in Hno. destruct Hno as [Hst Hno]. simpl in Hst.
  destruct (step_keeps_window t s st Hf Hst) as (Hf' & Htn & Hq).
  destruct (IH (step entrypoint t s st) Hno Hf') as (Hf'' & Htn' & Hg).
  rewrite exec_cons. split_and!; [done | congruence |].
  rewrite Hg. by apply quietStep_generations.
Qed.

(** A well timed schedule holds no tick before the ticker is due. *)
Lemma no_tick_before_due (sched : Schedule) (now : Z) (s : State) :
  wellTimed entrypoint now s sched →
  Forall (λ ts, (fst ts < tickerNext s)%Z) sched →
  fired s = true →
  Forall (λ ts, snd ts ≠ Loop RecvTick) sched.
Proof.
  revert now s. induction sched as [|[t st] sched IH]; intros now s; [constructor|].
  intros (_ & Htick & Hrest) Hbound Hf.
  rewrite Forall_cons in Hbound. destruct Hbound as [Ht Hbound]. simpl in Ht.
  assert (st ≠ Loop RecvTick) as Hst by (intros ->; specialize (Htick eq_refl); lia).
  destruct (step_keeps_window t s st Hf Hst) as (Hf' & Htn & _).
  constructor; [done|].
  apply (IH t (step entrypoint t s st)); [done | by rewrite Htn | done].
Qed.

(** C3, as the code has it.  When the loop accepts a write (it is running,
    the path is relevant, the window is closed), the window stays open
    until the loop receives a tick: if it receives none between that write
    and a second event, then from the first write to the second one, with
    whatever happens in between and at whatever times, exactly one
    generation is started, and the second write starts none.  The 100 ms
    enter through the ticker only: when the loop receives no tick before
    the ticker is due, it receives none before an event that arrives less
    than [ticketDuration] after the accepted write. *)
Theorem write_within_window_is_coalesced
    (s : State) (t1 t2 : Z) (e1 e2 : fsnotify.Event) (mid : Schedule) :
  running s = true →
  fired s = false →
  fsnotify.Name e1 ∈ paths (shared s) →
  isWrite (fsnotify.Op e1) = true →
  (Forall (λ ts, snd ts ≠ Loop RecvTick) mid →
   generations (exec entrypoint s ((t1, Loop (RecvEvent e1)) :: mid)) = S (generations s)
   ∧ generations
       (exec entrypoint s ((t1, Loop (RecvEvent e1)) :: mid ++ [(t2, Loop (RecvEvent e2))]))
     = S (generations s))
  ∧ (wellTimed entrypoint t1 (step entrypoint t1 s (Loop (RecvEvent e1)))
       (mid ++ [(t2, Loop (RecvEvent e2))]) →
     (t2 < t1 + ticketDuration)%Z →
     Forall (λ ts, snd ts ≠ Loop RecvTick) mid).
Proof.
  intros Hrun Hf Hrel Hw.
  assert (step entrypoint t1 s (Loop (RecvEvent e1))
          = accept t1 (fsnotify.Name e1) s) as Hacc.
  { simpl. rewrite Hrun. simpl. rewrite bool_decide_eq_true_2 by done.
    by rewrite Hw, Hf. }
  split.
  - intros Hno.
    assert (Forall (λ ts : Z * Step, snd ts ≠ Loop RecvTick)
              (mid ++ [(t2, Loop (RecvEvent e2))])) as Hno'.
    { apply Forall_app. split; [done|]. by repeat constructor. }
    destruct (window_stays_open_without_tick mid (accept t1 (fsnotify.Name e1) s) Hno eq_refl)
      as (_ & _ & Hg).
    destruct (window_stays_open_without_tick _ (accept t1 (fsnotify.Name e1) s) Hno' eq_refl)
      as (_ & _ & Hg').
    rewrite !exec_cons, Hacc. split.
    + rewrite Hg. apply accept_generations.
    + rewrite Hg'. apply accept_generations.
  - rewrite Hacc. intros Hwt Hlt.
    assert (Forall (λ ts, (fst ts < tickerNext (accept t1 (fsnotify.Name e1) s))%Z)
              (mid ++ [(t2, Loop (RecvEvent e2))])) as Hbound.
    { apply Forall_app. split.
      - eapply Forall_impl; [by eapply wellTimed_before_last|].
        simpl. intros ts ?. lia.
      - constructor; [simpl; lia | constructor]. }
    pose proof (no_tick_before_due _ _ _ Hwt Hbound eq_refl) as Hno.
    rewrite Forall_app in Hno. by destruct Hno.
Qed.

End LoopFacts.

Lemma write_within_window_is_coalesced_witness :
  generations
    (@exec Demo.platform "main.toit" Runs.probed
       ((10%Z, Demo.write "main.toit") :: [(40%Z, Demo.write "main.toit")]))
  = S (generations Runs.probed)
  ∧ generations
      (@exec Demo.platform "main.toit" Runs.probed
         ((10%Z, Demo.write "main.toit") :: [(40%Z, Demo.write "main.toit")]
            ++ [(70%Z, Demo.write "main.toit")]))
    = S (generations Runs.probed).
Proof.
  destruct (@write_within_window_is_coalesced Demo.platform "main.toit" Runs.probed
              10%Z 70%Z
              {| fsnotify.Name := "main.toit"; fsnotify.Op := fsnotify.Write |}
              {| fsnotify.Name := "main.toit"; fsnotify.Op := fsnotify.Write |}
              [(40%Z, Demo.write "main.toit")]) as [Hcoalesced Hnotick].
  - reflexivity.
  - reflexivity.
  - vm_compute. reflexivity.
  - reflexivity.
  - apply Hcoalesced. apply Hnotick.
    + repeat (apply wellTimed_cons; [lia | intros [=] |]). exact I.
    + reflexivity.
Defined.

(** C3 as the specification has it fails for a pair of writes of which the
    first one is itself coalesced.  Both schedules are well timed, and all
    their writes are writes of the relevant path [main.toit].  In
    [Runs.straddle] the writes at 70 and at 120 are 50 ms apart, and the
    second of them starts a generation: the window opened at 10 was closed
    by the tick at 110.  In [Runs.burst] the writes at 40 and at 70 are
    30 ms apart, and the two of them start no generation at all. *)
Lemma coalescing_fails_inside_a_window :
  elements (paths (shared Runs.probed)) = ["main.toit"]
  ∧ wellTimed (H := Demo.platform) "main.toit" 0 Runs.start Runs.straddle
  ∧ generations (@exec Demo.platform "main.toit" Runs.start (take 2 Runs.straddle)) = 2
  ∧ generations (@exec Demo.platform "main.toit" Runs.start (take 3 Runs.straddle)) = 2
  ∧ generations (@exec Demo.platform "main.toit" Runs.start (take 4 Runs.straddle)) = 2
  ∧ generations (@exec Demo.platform "main.toit" Runs.start Runs.straddle) = 3
  ∧ elements (paths (shared (@exec Demo.platform "main.toit" Runs.start Runs.straddle)))
    = ["main.toit"]
  ∧ wellTimed (H := Demo.platform) "main.toit" 0 Runs.start Runs.burst
  ∧ generations (@exec Demo.platform "main.toit" Runs.start (take 2 Runs.burst)) = 2
  ∧ generations (@exec Demo.platform "main.toit" Runs.start Runs.burst) = 2.
Proof.
  split_and!; try (vm_compute; reflexivity).
  - unfold Runs.straddle, Runs.firstProbe.
    repeat (apply wellTimed_cons;
            [lia | intros Htick; first [discriminate Htick | clear Htick; vm_compute; intros [=]] |]).
    exact I.
  - unfold Runs.burst, Runs.firstProbe.
    repeat (apply wellTimed_cons; [lia | intros [=] |]).
    exact I.
Qed.

(** Without the assumption on the ticker the time alone decides nothing.
    In [Runs.staleTick] the write at 100 is accepted and resets the ticker
    to 200; the loop then receives, at 101, the tick that was due at 100,
    and the write at 130, which is 30 ms after the accepted one, starts a
    generation. *)
Example stale_tick_reopens_the_window :
  generations Runs.probed = 1
  ∧ tickerNext Runs.probed = 100%Z
  ∧ generations (@exec Demo.platform "main.toit" Runs.probed (take 1 Runs.staleTick)) = 2
  ∧ tickerNext (@exec Demo.platform "main.toit" Runs.probed (take 1 Runs.staleTick)) = 200%Z
  ∧ generations (@exec Demo.platform "main.toit" Runs.probed (take 2 Runs.staleTick)) = 2
  ∧ generations (@exec Demo.platform "main.toit" Runs.probed Runs.staleTick) = 3.
Proof. split_and!; vm_compute; reflexivity. Qed.

(** ** Generations are cancelled before the next one starts *)

Lemma observeAll_app (live : option Ctx) (tr tr' : list Action) :
  observeAll live (tr ++ tr')
  = match observeAll live tr with
    | Some live' => observeAll live' tr'
    | None => None
    end.
Proof.
  revert live. induction tr as [|a tr IH]; intros live; simpl; [done|].
  destruct (observe live a); [apply IH | done].
Qed.

Lemma observeAll_quiet (live : option Ctx) (new : list Action) :
  Forall (λ a, quiet a = true) new → observeAll live new = Some live.
Proof.
  induction 1 as [|a new Ha _ IH]; simpl; [done|].
  destruct a; simpl in *; try discriminate; done.
Qed.

Lemma observe_start (live : option Ctx) (a : Action) (c : Ctx) (live' : option Ctx) :
  startOf c a → observe live a = Some live' → live' = Some c.
Proof.
  intros [-> | ->]; simpl; destruct live as [c'|]; try case_decide; congruence.
Qed.

(** A generation stays live until its cancellation. *)
Lemma observeAll_stays_live (c : Ctx) (tr : list Action) (live' : option Ctx) :
  observeAll (Some c) tr = Some live' → Cancel c ∉ tr → live' = Some c.
Proof.
  revert live'. induction tr as [|a tr IH]; intros live'; simpl; [congruence|].
  intros Hobs Hnot. apply not_elem_of_cons in Hnot as [Hne Hnot].
  destruct a; simpl in *; try (by apply IH).
  - case_decide; [by subst | by apply IH].
  - case_decide; [subst; by apply IH | discriminate].
  - case_decide; [subst; by apply IH | discriminate].
Qed.

(** In a trace that reads without failure, between a start for one
    generation and a start for another lies the cancellation of the first. *)
Lemma observeAll_between (tr : list Action) (live live' : option Ctx)
    (pre mid post : list Action) (a1 a2 : Action) (c1 c2 : Ctx) :
  observeAll live tr = Some live' →
  tr = pre ++ a1 :: mid ++ a2 :: post →
  startOf c1 a1 → startOf c2 a2 → c1 ≠ c2 →
  Cancel c1 ∈ mid.
Proof.
  intros Hobs -> H1 H2 Hne.
  rewrite observeAll_app in Hobs.
  destruct (observeAll live pre) as [l0|]; [|discriminate]. simpl in Hobs.
  destruct (observe l0 a1) as [l1|] eqn:Ha1; [|discriminate].
  apply (observe_start _ _ _ _ H1) in Ha1 as ->.
  rewrite observeAll_app in Hobs.
  destruct (observeAll (Some c1) mid) as [l2|] eqn:Hmid; [|discriminate].
  simpl in Hobs.
  destruct (decide (Cancel c1 ∈ mid)) as [|Hnot]; [done|].
  apply (observeAll_stays_live _ _ _ Hmid) in Hnot as ->.
  destruct H2 as [-> | ->]; simpl in Hobs; case_decide; congruence.
Qed.

Section GenerationFacts.
Context `{Platform}.
Variable entrypoint : string.

Lemma onWatchChanges_observed (w : watcher) (runFile : option error) (now : Z) :
  observeAll None (trace (onWatchChanges w runFile now))
  = Some (Some (previousCancel (onWatchChanges w runFile now))).
Proof. unfold onWatchChanges, runOnDevice. by destruct runFile. Qed.

Lemma step_observed (now : Z) (s : State) (st : Step) :
  observeAll None (trace s) = Some (Some (previousCancel s)) →
  observeAll None (trace (step entrypoint now s st))
  = Some (Some (previousCancel (step entrypoint now s st))).
Proof.
  intros Hs.
  destruct (step_accept_or_quiet entrypoint now s st)
    as [(name & -> & _ & _) | (_ & -> & new & -> & Hq)].
  - unfold accept. cbn [trace previousCancel].
    rewrite observeAll_app, Hs. simpl.
    rewrite decide_True by done. simpl. by rewrite decide_True.
  - rewrite observeAll_app, Hs. by apply observeAll_quiet.
Qed.

Lemma exec_observed (sched : Schedule) (s : State) :
  observeAll None (trace s) = Some (Some (previousCancel s)) →
  observeAll None (trace (exec entrypoint s sched))
  = Some (Some (previousCancel (exec entrypoint s sched))).
Proof.
  revert s. induction sched as [|[t st] sched IH]; intros s Hs; [done|].
  rewrite exec_cons. apply IH. by apply step_observed.
Qed.

(** C7. In every run of the command, between the start of a probe or run
    of one generation and the start of a probe or run of another
    generation, the cancel function of the first generation's context has
    been called: the probe and the run of a new generation start only after
    the cancellation of the previous one was issued, and no two runs start
    without it. *)
Theorem generation_starts_after_cancel
    (w : watcher) (runFile : option error) (now : Z) (sched : Schedule)
    (pre mid post : list Action) (a1 a2 : Action) (c1 c2 : Ctx) :
  trace (exec entrypoint (onWatchChanges w runFile now) sched)
    = pre ++ a1 :: mid ++ a2 :: post →
  startOf c1 a1 → startOf c2 a2 → c1 ≠ c2 →
  Cancel c1 ∈ mid.
Proof.
  intros Htr. eapply observeAll_between; [|exact Htr].
  apply exec_observed, onWatchChanges_observed.
Qed.

End GenerationFacts.

Lemma generation_starts_after_cancel_witness :
  Cancel 2 ∈ [TickerReset; Println "File modified 'main.toit'"; Cancel 2; WithCancel 3].
Proof.
  apply (@generation_starts_after_cancel Demo.platform "main.toit" Demo.fresh None 0%Z
           Runs.twoEdits
           [WithCancel 1; GoUpdateWatcher 1; StartRunOnDevice 1;
            Println "File modified 'main.toit'"; Cancel 1; WithCancel 2; GoUpdateWatcher 2]
           [TickerReset; Println "File modified 'main.toit'"; Cancel 2; WithCancel 3]
           [StartRunOnDevice 3; TickerReset]
           (StartRunOnDevice 2) (GoUpdateWatcher 3) 2 3).
  - vm_compute. reflexivity.
  - by right.
  - by left.
  - lia.
Defined.

(** * Facts about [WatchCmd] *)

Section WatchCmdFacts.
Context `{Platform}.

(** C9. When the entrypoint does not exist or is a directory, [RunE]
    returns an error, and it does so before [newWatcher] and
    [onWatchChanges] are called: no watcher is made and nothing is watched.
    The error is the one of the entrypoint, unless
    [GetProgramAssetsPath], which is called first, has failed already. *)
Theorem entrypoint_errors_are_fatal
    (env : Collaborators) (entrypoint : string)
    (runFile : option error) (now : Z) (sched : Schedule) :
  os_Stat entrypoint = StatNotExist ∨ os_Stat entrypoint = StatInfo true →
  ∃ e, snd (RunE env entrypoint runFile now sched) = Failed e
    ∧ (CallNewWatcher ∉ fst (RunE env entrypoint runFile now sched))
    ∧ (CallOnWatchChanges ∉ fst (RunE env entrypoint runFile now sched))
    ∧ (isOk (GetProgramAssetsPath env) = true →
       e = match os_Stat entrypoint with
           | StatNotExist => "no such file or directory: '" +:+ entrypoint +:+ "'"
           | _ => "can't watch directory: '" +:+ entrypoint +:+ "'"
           end).
Proof.
  intros Hstat. unfold RunE.
  destruct (GetProgramAssetsPath env) as [assets|e0]; simpl.
  - destruct Hstat as [-> | ->]; eexists; (split_and!; [done | | | done]);
      intros Hin; repeat (apply elem_of_cons in Hin as [Hin|Hin]; [discriminate|]);
      by apply elem_of_nil in Hin.
  - exists e0. split_and!; [done | | | done];
      intros Hin; repeat (apply elem_of_cons in Hin as [Hin|Hin]; [discriminate|]);
      by apply elem_of_nil in Hin.
Qed.

(** When every check passes, the watcher is made and the loop starts. *)
Lemma RunE_starts (env : Collaborators) (entrypoint : string)
    (runFile : option error) (now : Z) (w : watcher) :
  isOk (GetProgramAssetsPath env) = true →
  os_Stat entrypoint = StatInfo false →
  parseDeviceFlag env = None → GetSDK env = None → GetDevice env = None →
  optimizationLevelFlag env = None →
  newWatcher = Ok w →
  RunE env entrypoint runFile now []
  = ([CallGetProgramAssetsPath; CallStat; CallParseDeviceFlag; CallGetSDK; CallGetDevice;
      CallNewWatcher; CallOnWatchChanges],
     Waiting (onWatchChanges w runFile now)).
Proof.
  intros Ha Hs Hp Hsdk Hd Ho Hw. unfold RunE.
  destruct (GetProgramAssetsPath env); [|discriminate].
  rewrite Hs, Hp, Hsdk, Hd, Ho, Hw. simpl.
  unfold onWatchChanges, runOnDevice. by destruct runFile.
Qed.

End WatchCmdFacts.

Lemma entrypoint_errors_are_fatal_witness :
  ∃ e, snd (@RunE Demo.platform Demo.collaborators "lib" None 0%Z []) = Failed e
    ∧ (CallNewWatcher ∉ fst (@RunE Demo.platform Demo.collaborators "lib" None 0%Z []))
    ∧ (CallOnWatchChanges ∉ fst (@RunE Demo.platform Demo.collaborators "lib" None 0%Z []))
    ∧ (isOk (GetProgramAssetsPath Demo.collaborators) = true →
       e = match @os_Stat Demo.platform "lib" with
           | StatNotExist => "no such file or directory: '" +:+ "lib" +:+ "'"
           | _ => "can't watch directory: '" +:+ "lib" +:+ "'"
           end).
Proof.
  apply (@entrypoint_errors_are_fatal Demo.platform Demo.collaborators "lib" None 0%Z []).
  right. vm_compute. reflexivity.
Defined.

(** * Further properties of [watcher] *)

(** [Watch] called once for each batch of paths, one call after the other,
    whatever each call returns. *)
Definition watchAll `{Platform} (w : watcher) (batches : list (list string)) : watcher :=
  foldl (λ w ps, fst (Watch w ps)) w batches.

Section WatcherMore.
Context `{Platform}.

Lemma evalSymlinksAll_Forall2 (ps qs : list string) :
  Forall2 (λ p q, filepath_EvalSymlinks p = Ok q) ps qs →
  evalSymlinksAll ps = Ok qs.
Proof.
  induction 1 as [|p q ps qs Hp _ IH]; simpl; [done|]. by rewrite Hp, IH.
Qed.

Lemma evalSymlinksAll_resolves (ps : list string) :
  Forall (λ p, isOk (filepath_EvalSymlinks p) = true) ps →
  ∃ qs, evalSymlinksAll ps = Ok qs.
Proof.
  induction 1 as [|p ps Hp _ [qs IH]]; simpl; [eauto|].
  destruct (filepath_EvalSymlinks p); [|discriminate]. rewrite IH. eauto.
Qed.

Lemma size_list_to_set_le (l : list string) :
  size (list_to_set l : gset string) ≤ length l.
Proof.
  induction l as [|x l IH].
  - by rewrite list_to_set_nil, size_empty.
  - rewrite list_to_set_cons. cbn [length].
    pose proof (size_union_alt ({[x]} : gset string) (list_to_set l)) as Hs.
    rewrite size_singleton in Hs.
    pose proof (subseteq_size (list_to_set l ∖ {[x]}) (list_to_set l : gset string)) as Hd.
    rewrite Hs. specialize (Hd ltac:(set_solver)). lia.
Qed.

Lemma markPath_watches_mono (m : marking) (ps : list string) :
  fsnotify.watches (notify (marked m))
  ⊆ fsnotify.watches (notify (marked (foldl markPath m ps))).
Proof.
  revert m. induction ps as [|p ps IH]; intros m; simpl; [done|].
  etrans; [|apply IH]. simpl. case_bool_decide; [done|].
  unfold fsnotify.Add. destruct (inotify_add _); simpl; set_solver.
Qed.

Lemma markPath_registers (m : marking) (qs : list string) (q : string) :
  dirs (marked m) = ∅ →
  q ∈ qs →
  inotify_add (filepath_Dir q) = None →
  filepath_Dir q ∈ fsnotify.watches (notify (marked (foldl markPath m qs))).
Proof.
  revert m. induction qs as [|x qs IH]; intros m Hd Hin Hadd; [by apply elem_of_nil in Hin|].
  simpl. apply elem_of_cons in Hin as [<- | Hin].
  - apply markPath_watches_mono. simpl. rewrite Hd.
    rewrite bool_decide_eq_false_2 by set_solver.
    unfold fsnotify.Add. rewrite Hadd. simpl. set_solver.
  - by apply IH.
Qed.

Lemma Watch_ok_notify (w : watcher) (ps qs : list string) :
  dirs w = ∅ →
  evalSymlinksAll ps = Ok qs →
  notify (fst (Watch w ps))
  = notify (marked (foldl markPath {| marked := w; candidateDirs := ∅; candidates := ∅ |} qs)).
Proof.
  intros Hd Hq. unfold Watch. rewrite Hq. cbn [fst dirs].
  rewrite markPath_dirs. cbn [marked]. by rewrite Hd, elements_empty.
Qed.

(** X1. When the symbolic links of every given path resolve, [Watch]
    returns no error and [paths] becomes the set of the resolved paths,
    whatever it held before: a watch set is replaced, never merged.  It
    holds at most as many paths as were given. *)
Theorem Watch_replaces_paths (w : watcher) (ps qs : list string) :
  Forall2 (λ p q, filepath_EvalSymlinks p = Ok q) ps qs →
  snd (Watch w ps) = None
  ∧ paths (fst (Watch w ps)) = list_to_set qs
  ∧ CountPaths (fst (Watch w ps)) ≤ length ps.
Proof.
  intros Hres. pose proof (evalSymlinksAll_Forall2 _ _ Hres) as Hq.
  split_and!.
  - unfold Watch. by rewrite Hq.
  - by apply Watch_paths.
  - unfold CountPaths. rewrite (Watch_paths w ps qs Hq).
    rewrite (Forall2_length _ _ _ Hres). apply size_list_to_set_le.
Qed.

(** X2. [Watch] returns an error exactly when the symbolic links of one of
    the given paths do not resolve; no other failure (of [Add], of
    [Remove]) makes it return one. *)
Theorem Watch_succeeds_iff_all_resolve (w : watcher) (ps : list string) :
  snd (Watch w ps) = None
  ↔ Forall (λ p, isOk (filepath_EvalSymlinks p) = true) ps.
Proof.
  split.
  - intros Hok. apply Forall_forall. intros p Hin.
    destruct (isOk (filepath_EvalSymlinks p)) eqn:Hp; [done|].
    destruct (evalSymlinksAll_fails ps p Hin Hp) as [e He].
    unfold Watch in Hok. by rewrite He in Hok.
  - intros Hall. destruct (evalSymlinksAll_resolves ps Hall) as [qs Hq].
    unfold Watch. by rewrite Hq.
Qed.

(** X3. The error [Watch] returns is the one of the first path, in the
    order given, whose symbolic links do not resolve; the paths after it
    are not looked at, and the watcher is unchanged. *)
Theorem Watch_returns_first_error
    (w : watcher) (pre post : list string) (p : string) (e : error) :
  Forall (λ p, isOk (filepath_EvalSymlinks p) = true) pre →
  filepath_EvalSymlinks p = Err e →
  Watch w (pre ++ p :: post) = (w, Some e).
Proof.
  intros Hpre Hp. unfold Watch.
  assert (evalSymlinksAll (pre ++ p :: post) = Err e) as ->; [|done].
  induction Hpre as [|x pre Hx _ IH]; simpl.
  - by rewrite Hp.
  - destruct (filepath_EvalSymlinks x); [|discriminate]. by rewrite IH.
Qed.

Lemma Watch_keeps_dirs_empty_step (w : watcher) (ps : list string) :
  dirs w = ∅ →
  dirs (fst (Watch w ps)) = ∅
  ∧ fsnotify.watches (notify w) ⊆ fsnotify.watches (notify (fst (Watch w ps)))
  ∧ ∀ d, fsnotify.CallRemove d ∈ fsnotify.calls (notify (fst (Watch w ps))) →
         fsnotify.CallRemove d ∈ fsnotify.calls (notify w).
Proof.
  intros Hd. split; [by apply Watch_dirs_empty|].
  destruct (evalSymlinksAll ps) as [qs|e] eqn:Hq.
  - split.
    + rewrite (Watch_ok_notify w ps qs Hd Hq).
      apply (markPath_watches_mono {| marked := w; candidateDirs := ∅; candidates := ∅ |}).
    + intros d. rewrite (Watch_calls w ps qs Hd Hq).
      intros [Hin | Hin]%elem_of_app; [done|].
      apply list_elem_of_fmap in Hin as (q & Heq & _). discriminate.
  - unfold Watch. rewrite Hq. simpl. split; [done | auto].
Qed.

(** X4. From a watcher whose [dirs] is empty, as the one [newWatcher]
    returns, any sequence of [Watch] calls leaves [dirs] empty, never calls
    [Remove], and never takes a directory out of what is registered with
    the OS: registrations only accumulate. *)
Theorem Watch_never_unregisters (w : watcher) (batches : list (list string)) :
  dirs w = ∅ →
  dirs (watchAll w batches) = ∅
  ∧ fsnotify.watches (notify w) ⊆ fsnotify.watches (notify (watchAll w batches))
  ∧ ∀ d, fsnotify.CallRemove d ∈ fsnotify.calls (notify (watchAll w batches)) →
         fsnotify.CallRemove d ∈ fsnotify.calls (notify w).
Proof.
  unfold watchAll. revert w.
  induction batches as [|ps batches IH]; intros w Hd; simpl; [by auto|].
  destruct (Watch_keeps_dirs_empty_step w ps Hd) as (Hd' & Hsub & Hrm).
  destruct (IH _ Hd') as (Hd'' & Hsub' & Hrm').
  split_and!; [done | set_solver | auto].
Qed.

(** X5. From a watcher whose [dirs] is empty, a [Watch] that succeeds
    leaves the directory of every resolved path registered with the OS,
    unless the OS refused that directory. *)
Theorem Watch_registers_directories (w : watcher) (ps qs : list string) (q : string) :
  dirs w = ∅ →
  Forall2 (λ p q, filepath_EvalSymlinks p = Ok q) ps qs →
  q ∈ qs →
  inotify_add (filepath_Dir q) = None →
  filepath_Dir q ∈ fsnotify.watches (notify (fst (Watch w ps))).
Proof.
  intros Hd Hres Hin Hadd.
  rewrite (Watch_ok_notify w ps qs Hd (evalSymlinksAll_Forall2 _ _ Hres)).
  by apply markPath_registers.
Qed.

(** X6. From a watcher whose [dirs] is empty, a [Watch] that succeeds
    calls [Add] once for every given path, in the order given, with the
    directory of the resolved path, also when that directory was added
    before; it makes no other call. *)
Theorem Watch_adds_once_per_path (w : watcher) (ps qs : list string) :
  dirs w = ∅ →
  Forall2 (λ p q, filepath_EvalSymlinks p = Ok q) ps qs →
  fsnotify.calls (notify (fst (Watch w ps)))
  = fsnotify.calls (notify w) ++ (fsnotify.CallAdd ∘ filepath_Dir <$> qs).
Proof.
  intros Hd Hres. apply Watch_calls; [done|]. by apply evalSymlinksAll_Forall2.
Qed.

End WatcherMore.

Lemma Watch_replaces_paths_witness :
  snd (@Watch Demo.platform (fst Scenario2.first) Scenario2.report2) = None
  ∧ paths (fst (@Watch Demo.platform (fst Scenario2.first) Scenario2.report2))
    = list_to_set ["pkg/c.toit"]
  ∧ @CountPaths (fst (@Watch Demo.platform (fst Scenario2.first) Scenario2.report2))
    ≤ length Scenario2.report2.
Proof.
  apply (@Watch_replaces_paths Demo.platform (fst Scenario2.first)
           Scenario2.report2 ["pkg/c.toit"]).
  repeat constructor.
Defined.

Lemma Watch_returns_first_error_witness :
  @Watch Demo.platform Demo.fresh (["pkg/c.toit"] ++ "nope" :: ["gone"; "lib/a.toit"])
  = (Demo.fresh, Some "lstat nope: no such file or directory").
Proof.
  apply (@Watch_returns_first_error Demo.platform Demo.fresh
           ["pkg/c.toit"] ["gone"; "lib/a.toit"] "nope").
  - repeat constructor.
  - vm_compute. reflexivity.
Defined.

Lemma Watch_never_unregisters_witness :
  dirs (@watchAll Demo.platform Demo.fresh [Scenario2.report1; Scenario2.report2]) = ∅
  ∧ fsnotify.watches (notify Demo.fresh)
    ⊆ fsnotify.watches
        (notify (@watchAll Demo.platform Demo.fresh [Scenario2.report1; Scenario2.report2]))
  ∧ ∀ d, fsnotify.CallRemove d
           ∈ fsnotify.calls
               (notify (@watchAll Demo.platform Demo.fresh [Scenario2.report1; Scenario2.report2])) →
         fsnotify.CallRemove d ∈ fsnotify.calls (notify Demo.fresh).
Proof.
  apply (@Watch_never_unregisters Demo.platform Demo.fresh
           [Scenario2.report1; Scenario2.report2]).
  reflexivity.
Defined.

Lemma Watch_registers_directories_witness :
  @filepath_Dir Demo.platform "lib/a.toit"
  ∈ fsnotify.watches (notify (fst (@Watch Demo.platform Demo.fresh Scenario2.report1))).
Proof.
  apply (@Watch_registers_directories Demo.platform Demo.fresh
           Scenario2.report1 ["lib/a.toit"; "lib/b.toit"] "lib/a.toit").
  - reflexivity.
  - repeat constructor.
  - apply elem_of_cons. by left.
  - reflexivity.
Defined.

Lemma Watch_adds_once_per_path_witness :
  fsnotify.calls (notify (fst (@Watch Demo.platform Demo.fresh Scenario2.report1)))
  = fsnotify.calls (notify Demo.fresh)
      ++ (fsnotify.CallAdd ∘ @filepath_Dir Demo.platform <$> ["lib/a.toit"; "lib/b.toit"]).
Proof.
  apply (@Watch_adds_once_per_path Demo.platform Demo.fresh
           Scenario2.report1 ["lib/a.toit"; "lib/b.toit"]).
  - reflexivity.
  - repeat constructor.
Defined.

(** * Further properties of [updateWatcher] *)

Section ProbeMore.
Context `{Platform}.
Variable entrypoint : string.

(** What [applyPaths] and [updateWatcher] leave alone. *)
Definition sameLoop (s s' : State) : Prop :=
  cancelled s' = cancelled s
  ∧ nextCtx s' = nextCtx s
  ∧ pendingProbes s' = pendingProbes s
  ∧ pendingRuns s' = pendingRuns s
  ∧ fired s' = fired s
  ∧ previousCancel s' = previousCancel s
  ∧ tickerNext s' = tickerNext s
  ∧ running s' = running s.

Lemma applyPaths_frame (ps : list string) (s : State) :
  sameLoop s (applyPaths entrypoint ps s)
  ∧ (trace (applyPaths entrypoint ps s) = trace s
     ∨ ∃ e, trace (applyPaths entrypoint ps s)
              = trace s ++ [Println ("Failed to update watcher:  " +:+ e)]
            ∧ shared (applyPaths entrypoint ps s) = shared s).
Proof.
  unfold applyPaths.
  destruct (Watch _ _) as [w [e|]] eqn:Hw; simpl.
  - apply Watch_error in Hw as [-> _].
    split; [by repeat split|]. right. by exists e.
  - split; [by repeat split | by left].
Qed.

Lemma updateWatcher_frame_aux (runCtx : Ctx) (io : ProbeIO) (s : State) :
  sameLoop s (updateWatcher entrypoint runCtx io s)
  ∧ (trace (updateWatcher entrypoint runCtx io s) = trace s
     ∨ ∃ e, trace (updateWatcher entrypoint runCtx io s)
              = trace s ++ [Println ("Failed to update watcher:  " +:+ e)]
            ∧ shared (updateWatcher entrypoint runCtx io s) = shared s).
Proof.
  unfold updateWatcher.
  destruct (createTemp io); [|apply applyPaths_frame].
  destruct (ToitAnalyze_Run s rootCtx io).
  - case_bool_decide; [|apply applyPaths_frame].
    split; [by repeat split | by left].
  - destruct (readFile io); apply applyPaths_frame.
Qed.

(** X7. A probe changes the watcher and nothing else of the program: the
    contexts, the goroutines waiting to run, the debounce flag, the ticker
    and the loop are as before, and it prints nothing, or the one line
    "Failed to update watcher" when [Watch] failed, in which case the
    watcher is unchanged too. *)
Theorem updateWatcher_frame (runCtx : Ctx) (io : ProbeIO) (s : State) :
  sameLoop s (updateWatcher entrypoint runCtx io s)
  ∧ (trace (updateWatcher entrypoint runCtx io s) = trace s
     ∨ ∃ e, trace (updateWatcher entrypoint runCtx io s)
              = trace s ++ [Println ("Failed to update watcher:  " +:+ e)]
            ∧ shared (updateWatcher entrypoint runCtx io s) = shared s).
Proof. apply updateWatcher_frame_aux. Qed.

(** X8. When the analyzer succeeds and its report names at least one
    existing path, the watch set becomes the resolved paths of the report,
    whatever it was before, and nothing is printed. *)
Theorem updateWatcher_applies_report
    (runCtx : Ctx) (io : ProbeIO) (s : State) (tmp : string) (b : list byte)
    (qs : list string) :
  createTemp io = Ok tmp →
  ToitAnalyze_Run s rootCtx io = None →
  readFile io = Ok b →
  parseDependeniesToDirs b ≠ [] →
  Forall2 (λ p q, filepath_EvalSymlinks p = Ok q) (parseDependeniesToDirs b) qs →
  paths (shared (updateWatcher entrypoint runCtx io s)) = list_to_set qs
  ∧ trace (updateWatcher entrypoint runCtx io s) = trace s.
Proof.
  intros Htmp Hrun Hread Hne Hres.
  unfold updateWatcher. rewrite Htmp, Hrun, Hread. unfold applyPaths.
  destruct (parseDependeniesToDirs b) as [|p ps] eqn:Hps; [done|].
  destruct (Watch_replaces_paths (shared s) (p :: ps) qs Hres) as (Herr & Hpaths & _).
  destruct (Watch (shared s) (p :: ps)) as [w err]. simpl in *. subst err.
  done.
Qed.

(** X9. When the temporary file cannot be made, or the analyzer succeeds
    but its report cannot be read or names no existing path, the watch set
    is replaced by the fallback, also when it held paths before: once the
    directory of the entrypoint resolves, that directory is the one
    relevant path left. *)
Theorem updateWatcher_falls_back_without_report
    (runCtx : Ctx) (io : ProbeIO) (s : State) (dir : string) :
  isOk (createTemp io) = false
  ∨ (ToitAnalyze_Run s rootCtx io = None
     ∧ match readFile io with
       | Ok b => parseDependeniesToDirs b = []
       | Err _ => True
       end) →
  filepath_EvalSymlinks (filepath_Dir entrypoint) = Ok dir →
  paths (shared (updateWatcher entrypoint runCtx io s)) = {[dir]}
  ∧ trace (updateWatcher entrypoint runCtx io s) = trace s.
Proof.
  intros Hcase Hdir.
  assert (updateWatcher entrypoint runCtx io s = applyPaths entrypoint [] s) as ->.
  { unfold updateWatcher. destruct (createTemp io) as [tmp|e0].
    - destruct Hcase as [? | [-> Hread]]; [discriminate|].
      destruct (readFile io) as [b|e1]; [by rewrite Hread | done].
    - done. }
  unfold applyPaths. rewrite Watch_singleton, Hdir. simpl.
  destruct (CountPaths_singleton (shared s) _ _ Hdir) as [Hp _]. done.
Qed.

(** X10. After the fallback the only relevant path is the resolved
    directory of the entrypoint, so the loop ignores every event with
    another name, whatever its operation: no generation starts and the
    state is unchanged.  A write of the entrypoint file itself is such an
    event. *)
Theorem fallback_ignores_other_names
    (s : State) (dir : string) (event : fsnotify.Event) (now : Z) :
  filepath_EvalSymlinks (filepath_Dir entrypoint) = Ok dir →
  fsnotify.Name event ≠ dir →
  step entrypoint now (applyPaths entrypoint [] s) (Loop (RecvEvent event))
  = applyPaths entrypoint [] s.
Proof.
  intros Hdir Hne.
  assert (paths (shared (applyPaths entrypoint [] s)) = {[dir]}) as Hp.
  { unfold applyPaths. rewrite Watch_singleton, Hdir. simpl.
    by destruct (CountPaths_singleton (shared s) _ _ Hdir) as [-> _]. }
  simpl. destruct (running _); [|done]. simpl.
  rewrite Hp. rewrite bool_decide_eq_false_2 by set_solver. done.
Qed.

End ProbeMore.

Lemma updateWatcher_applies_report_witness :
  paths (shared (@updateWatcher Demo.platform "main.toit" 1
                   (Demo.analyzed ["main.toit:"; "lib/a.toit"]) Runs.start))
  = list_to_set ["main.toit"; "lib/a.toit"]
  ∧ trace (@updateWatcher Demo.platform "main.toit" 1
             (Demo.analyzed ["main.toit:"; "lib/a.toit"]) Runs.start)
    = trace Runs.start.
Proof.
  apply (@updateWatcher_applies_report Demo.platform "main.toit" 1
           (Demo.analyzed ["main.toit:"; "lib/a.toit"]) Runs.start "/tmp/123.txt"
           (Demo.report ["main.toit:"; "lib/a.toit"]) ["main.toit"; "lib/a.toit"]).
  - reflexivity.
  - reflexivity.
  - reflexivity.
  - vm_compute. intros Heq. discriminate Heq.
  - vm_compute. repeat constructor.
Defined.

Lemma updateWatcher_falls_back_without_report_witness :
  paths (shared (@updateWatcher Demo.platform "main.toit" 2
                   {| createTemp := Err "no space left on device";
                      analyzerExit := None;
                      readFile := Ok [] |} Runs.probed))
  = {[ "." ]}
  ∧ trace (@updateWatcher Demo.platform "main.toit" 2
             {| createTemp := Err "no space left on device";
                analyzerExit := None;
                readFile := Ok [] |} Runs.probed)
    = trace Runs.probed.
Proof.
  apply (@updateWatcher_falls_back_without_report Demo.platform "main.toit" 2
           {| createTemp := Err "no space left on device";
              analyzerExit := None;
              readFile := Ok [] |} Runs.probed ".").
  - left. reflexivity.
  - reflexivity.
Defined.

Lemma fallback_ignores_other_names_witness :
  @step Demo.platform "main.toit" 10%Z (@applyPaths Demo.platform "main.toit" [] Runs.start)
    (Demo.write "main.toit")
  = @applyPaths Demo.platform "main.toit" [] Runs.start.
Proof.
  apply (@fallback_ignores_other_names Demo.platform "main.toit" Runs.start "."
           {| fsnotify.Name := "main.toit"; fsnotify.Op := fsnotify.Write |} 10%Z).
  - reflexivity.
  - intros Heq. discriminate Heq.
Defined.

(** * Further properties of the loop *)

Definition isPrintln (a : Action) : bool :=
  match a with Println _ => true | _ => false end.

Definition isCloseDone (a : Action) : bool :=
  match a with CloseDone => true | _ => false end.

Definition isWithCancel (a : Action) : bool :=
  match a with WithCancel _ => true | _ => false end.

Definition isCancel (a : Action) : bool :=
  match a with Cancel _ => true | _ => false end.

Definition isGoUpdateWatcher (a : Action) : bool :=
  match a with GoUpdateWatcher _ => true | _ => false end.

(** How many actions of a trace are of one kind. *)
Definition countIf (f : Action → bool) (tr : list Action) : nat :=
  length (List.filter f tr).

#[local] Ltac shape_same :=
  split_and!; [done..| by left | exists []; by rewrite app_nil_r].
#[local] Ltac shape_print :=
  split_and!; [done..| by left | eexists; split; [reflexivity | by repeat constructor]].

Section LoopMore.
Context `{Platform}.
Variable entrypoint : string.

Lemma countIf_app (f : Action → bool) (tr tr' : list Action) :
  countIf f (tr ++ tr') = countIf f tr + countIf f tr'.
Proof. unfold countIf. by rewrite List.filter_app, length_app. Qed.

Lemma countIf_Println (f : Action → bool) (new : list Action) :
  (∀ l, f (Println l) = false) →
  Forall (λ a, isPrintln a = true) new →
  countIf f new = 0.
Proof.
  intros Hf. induction 1 as [|a new Ha _ IH]; [done|].
  destruct a; try discriminate. unfold countIf in *. simpl. by rewrite Hf.
Qed.

(** Every step is one of three: an accepted write; the return of the loop;
    or a step that leaves the loop's contexts and the loop itself alone and
    prints at most. *)
Lemma step_shape (now : Z) (s : State) (st : Step) :
  (∃ name, running s = true ∧ fired s = false
     ∧ name ∈ paths (shared s)
     ∧ step entrypoint now s st = accept now name s)
  ∨ (running s = true
     ∧ running (step entrypoint now s st) = false
     ∧ trace (step entrypoint now s st) = trace s ++ [TickerStop; CloseDone]
     ∧ nextCtx (step entrypoint now s st) = nextCtx s
     ∧ previousCancel (step entrypoint now s st) = previousCancel s
     ∧ cancelled (step entrypoint now s st) = cancelled s)
  ∨ (running (step entrypoint now s st) = running s
     ∧ nextCtx (step entrypoint now s st) = nextCtx s
     ∧ previousCancel (step entrypoint now s st) = previousCancel s
     ∧ (cancelled (step entrypoint now s st) = cancelled s
        ∨ cancelled (step entrypoint now s st) = {[rootCtx]} ∪ cancelled s)
     ∧ ∃ new, trace (step entrypoint now s st) = trace s ++ new
              ∧ Forall (λ a, isPrintln a = true) new).
Proof.
  destruct st as [sel | c io | c r |]; simpl.
  - destruct (running s) eqn:Hrun; [|right; right; shape_same].
    destruct sel; simpl.
    + case_bool_decide; [|right; right; shape_same].
      destruct (isWrite _); [|right; right; shape_same].
      destruct (fired s) eqn:Hf; [right; right; shape_same|].
      left. eauto.
    + right. left. by repeat split.
    + right. right. shape_same.
    + right. right. shape_print.
    + right. left. by repeat split.
    + case_bool_decide; [right; left; by repeat split | right; right; shape_same].
  - right. right. case_bool_decide; [|shape_same].
    destruct (updateWatcher_frame_aux entrypoint c io (withoutProbe c s))
      as ((Hc & Hn & _ & _ & _ & Hp & _ & Hr) & [Ht | (e & Ht & _)]); simpl in *.
    + split_and!; [done..| by left |]. exists []. by rewrite app_nil_r.
    + split_and!; [done..| by left |]. eexists. split; [done | by repeat constructor].
  - right. right. case_bool_decide; [|shape_same].
    unfold runOnDevice. destruct r; [shape_print | shape_same].
  - right. right. split_and!; [done..| by right |].
    exists []. by rewrite app_nil_r.
Qed.

Lemma exec_invariant (Inv : State → Prop) (sched : Schedule) (s : State) :
  (∀ now s st, Inv s → Inv (step entrypoint now s st)) →
  Inv s → Inv (exec entrypoint s sched).
Proof.
  intros Hstep. revert s. induction sched as [|[t st] sched IH]; intros s Hs; [done|].
  rewrite exec_cons. apply IH. by apply Hstep.
Qed.

(** [doneCh] is closed when the loop has returned, once. *)
Definition closedOnReturn (s : State) : Prop :=
  countIf isCloseDone (trace s) = if running s then 0 else 1.

Lemma step_closedOnReturn (now : Z) (s : State) (st : Step) :
  closedOnReturn s → closedOnReturn (step entrypoint now s st).
Proof.
  unfold closedOnReturn. intros Hs.
  destruct (step_shape now s st)
    as [(name & Hrun & _ & _ & ->)
       | [(Hrun & -> & -> & _) | (-> & _ & _ & _ & new & -> & Hnew)]].
  - rewrite Hrun in Hs. unfold accept. cbn [trace running]. rewrite countIf_app, Hs. done.
  - rewrite Hrun in Hs. rewrite countIf_app, Hs. done.
  - rewrite countIf_app, Hs, (countIf_Println isCloseDone new); [lia | done | done].
Qed.

Lemma exec_closedOnReturn
    (w : watcher) (runFile : option error) (now : Z) (sched : Schedule) :
  closedOnReturn (exec entrypoint (onWatchChanges w runFile now) sched).
Proof.
  apply (exec_invariant closedOnReturn); [apply step_closedOnReturn|].
  unfold closedOnReturn, onWatchChanges, runOnDevice. by destruct runFile.
Qed.

(** X11. In every run the loop closes [doneCh] exactly when it returns,
    and never twice: the trace holds no [close(doneCh)] while the loop
    runs, and one from its return on. *)
Theorem doneCh_closed_once
    (w : watcher) (runFile : option error) (now : Z) (sched : Schedule) :
  countIf isCloseDone (trace (exec entrypoint (onWatchChanges w runFile now) sched))
  = if running (exec entrypoint (onWatchChanges w runFile now) sched) then 0 else 1.
Proof.
  apply (exec_invariant closedOnReturn); [apply step_closedOnReturn|].
  unfold closedOnReturn, onWatchChanges, runOnDevice. by destruct runFile.
Qed.

(** The contexts the program has cancelled are older than the current
    generation's, the context of the command line apart. *)
Definition currentIsLive (s : State) : Prop :=
  nextCtx s = S (previousCancel s)
  ∧ 1 ≤ previousCancel s
  ∧ ∀ c, c ∈ cancelled s → c = rootCtx ∨ c < previousCancel s.

Lemma step_currentIsLive (now : Z) (s : State) (st : Step) :
  currentIsLive s → currentIsLive (step entrypoint now s st).
Proof.
  unfold currentIsLive. intros (Hn & Hp & Hc).
  destruct (step_shape now s st)
    as [(name & _ & _ & _ & ->)
       | [(_ & _ & _ & Hn' & Hp' & Hc')
         | (_ & Hn' & Hp' & Hc' & _)]].
  - unfold accept. cbn [nextCtx previousCancel cancelled]. split_and!; [lia..|].
    intros c [->%elem_of_singleton | Hin]%elem_of_union; [lia|].
    destruct (Hc c Hin); [auto | lia].
  - rewrite Hn', Hp', Hc'. split_and!; done.
  - rewrite Hn', Hp'. split_and!; [done..|].
    intros c Hin. destruct Hc' as [Hc' | Hc']; rewrite Hc' in Hin.
    + by apply Hc.
    + apply elem_of_union in Hin as [->%elem_of_singleton | Hin]; [by left | by apply Hc].
Qed.

(** X12. The loop never cancels the context of the current generation,
    not even when it returns: in every run that context is not among the
    cancelled ones, and it is done only if the context of the command line
    was cancelled from outside. *)
Theorem current_generation_is_never_cancelled
    (w : watcher) (runFile : option error) (now : Z) (sched : Schedule) :
  (previousCancel (exec entrypoint (onWatchChanges w runFile now) sched)
     ∉ cancelled (exec entrypoint (onWatchChanges w runFile now) sched))
  ∧ ctxDone (exec entrypoint (onWatchChanges w runFile now) sched)
      (previousCancel (exec entrypoint (onWatchChanges w runFile now) sched))
    = bool_decide (rootCtx ∈ cancelled (exec entrypoint (onWatchChanges w runFile now) sched)).
Proof.
  assert (currentIsLive (exec entrypoint (onWatchChanges w runFile now) sched))
    as (_ & Hp & Hc).
  { apply (exec_invariant currentIsLive); [apply step_currentIsLive|].
    unfold currentIsLive, onWatchChanges, runOnDevice.
    destruct runFile; simpl; (split_and!; [done..|]); intros c Hin; set_solver. }
  set (s := exec entrypoint (onWatchChanges w runFile now) sched) in *.
  assert (previousCancel s ∉ cancelled s) as Hnot.
  { intros Hin. destruct (Hc _ Hin) as [Heq | Hlt]; [|lia].
    unfold rootCtx in Heq. lia. }
  split; [done|]. unfold ctxDone. by rewrite bool_decide_eq_false_2.
Qed.

(** Every generation has one context, one probe and one run, and every
    generation but the current one was cancelled. *)
Definition oneOfEach (s : State) : Prop :=
  nextCtx s = S (previousCancel s)
  ∧ countIf startsRun (trace s) = previousCancel s
  ∧ countIf isGoUpdateWatcher (trace s) = previousCancel s
  ∧ countIf isWithCancel (trace s) = previousCancel s
  ∧ S (countIf isCancel (trace s)) = previousCancel s.

Lemma step_oneOfEach (now : Z) (s : State) (st : Step) :
  oneOfEach s → oneOfEach (step entrypoint now s st).
Proof.
  unfold oneOfEach. intros (Hn & Hr & Hg & Hw & Hc).
  destruct (step_shape now s st)
    as [(name & _ & _ & _ & ->)
       | [(_ & _ & -> & -> & -> & _)
         | (_ & -> & -> & _ & new & -> & Hnew)]].
  - unfold accept. cbn [trace previousCancel nextCtx].
    unfold countIf in *. rewrite !List.filter_app, !length_app. simpl. lia.
  - unfold countIf in *. rewrite !List.filter_app, !length_app. simpl. lia.
  - rewrite !countIf_app.
    rewrite !(countIf_Println _ new) by done. lia.
Qed.

(** X13. In every run each generation gets one context, one probe and one
    run: the numbers of [context.WithCancel], of [go updateWatcher] and of
    [runOnDevice] starts are equal, and the number of calls of a cancel
    function is one less, the current generation being the one not
    cancelled. *)
Theorem one_probe_and_one_run_per_generation
    (w : watcher) (runFile : option error) (now : Z) (sched : Schedule) :
  countIf isGoUpdateWatcher (trace (exec entrypoint (onWatchChanges w runFile now) sched))
  = generations (exec entrypoint (onWatchChanges w runFile now) sched)
  ∧ countIf isWithCancel (trace (exec entrypoint (onWatchChanges w runFile now) sched))
    = generations (exec entrypoint (onWatchChanges w runFile now) sched)
  ∧ S (countIf isCancel (trace (exec entrypoint (onWatchChanges w runFile now) sched)))
    = generations (exec entrypoint (onWatchChanges w runFile now) sched).
Proof.
  assert (oneOfEach (exec entrypoint (onWatchChanges w runFile now) sched))
    as (_ & Hr & Hg & Hw & Hc).
  { apply (exec_invariant oneOfEach); [apply step_oneOfEach|].
    unfold oneOfEach, onWatchChanges, runOnDevice. by destruct runFile. }
  unfold generations. fold (countIf startsRun
    (trace (exec entrypoint (onWatchChanges w runFile now) sched))).
  rewrite Hr. done.
Qed.

Definition isProbe (st : Step) : bool :=
  match st with Probe _ _ => true | _ => false end.

(** Only a probe changes the watcher. *)
Lemma step_keeps_watcher (now : Z) (s : State) (st : Step) :
  isProbe st = false → shared (step entrypoint now s st) = shared s.
Proof.
  intros Hst. destruct st as [sel | c io | c r |]; try discriminate; simpl.
  - destruct (running s); [|done]. destruct sel; simpl; try done.
    + case_bool_decide; [|done]. destruct (isWrite _); [|done]. by destruct (fired s).
    + by case_bool_decide.
  - case_bool_decide; [|done]. unfold runOnDevice. by destruct r.
  - done.
Qed.

Lemma step_without_watch_set (now : Z) (s : State) (st : Step) :
  isProbe st = false →
  paths (shared s) = ∅ →
  paths (shared (step entrypoint now s st)) = ∅
  ∧ generations (step entrypoint now s st) = generations s.
Proof.
  intros Hst Hp. split; [by rewrite step_keeps_watcher|].
  unfold generations.
  fold (countIf startsRun (trace (step entrypoint now s st))).
  fold (countIf startsRun (trace s)).
  destruct (step_shape now s st)
    as [(name & _ & _ & Hin & _)
       | [(_ & _ & -> & _) | (_ & _ & _ & _ & new & -> & Hnew)]].
  - rewrite Hp in Hin. set_solver.
  - by rewrite countIf_app.
  - rewrite countIf_app, (countIf_Println startsRun new); [lia | done | done].
Qed.

(** X14. While the watch set is empty no event is relevant: until a probe
    has run, the loop starts no generation, whatever it receives.  Edits
    made before the first probe completes are lost. *)
Theorem nothing_starts_before_the_first_probe
    (w : watcher) (runFile : option error) (now : Z) (sched : Schedule) :
  paths w = ∅ →
  Forall (λ ts, isProbe (snd ts) = false) sched →
  generations (exec entrypoint (onWatchChanges w runFile now) sched) = 1
  ∧ paths (shared (exec entrypoint (onWatchChanges w runFile now) sched)) = ∅.
Proof.
  intros Hw Hsched.
  assert (∀ s, paths (shared s) = ∅ →
               paths (shared (exec entrypoint s sched)) = ∅
               ∧ generations (exec entrypoint s sched) = generations s) as Hrun.
  { induction Hsched as [|[t st] sched Hst _ IH]; intros s Hs; [done|].
    rewrite exec_cons. simpl in Hst.
    destruct (step_without_watch_set t s st Hst Hs) as [Hp Hg].
    destruct (IH _ Hp) as [Hp' Hg']. split; [done | congruence]. }
  destruct (Hrun (onWatchChanges w runFile now)) as [Hp Hg].
  - unfold onWatchChanges, runOnDevice. by destruct runFile.
  - split; [|done]. rewrite Hg.
    unfold generations, onWatchChanges, runOnDevice. by destruct runFile.
Qed.

End LoopMore.

Lemma nothing_starts_before_the_first_probe_witness :
  generations
    (@exec Demo.platform "main.toit" (onWatchChanges Demo.fresh None 0%Z)
       [(10%Z, Demo.write "main.toit"); (100%Z, Loop RecvTick); (120%Z, Demo.write "main.toit")])
  = 1
  ∧ paths (shared
      (@exec Demo.platform "main.toit" (onWatchChanges Demo.fresh None 0%Z)
         [(10%Z, Demo.write "main.toit"); (100%Z, Loop RecvTick);
          (120%Z, Demo.write "main.toit")]))
    = ∅.
Proof.
  apply (@nothing_starts_before_the_first_probe Demo.platform "main.toit" Demo.fresh None 0%Z
           [(10%Z, Demo.write "main.toit"); (100%Z, Loop RecvTick);
            (120%Z, Demo.write "main.toit")]).
  - reflexivity.
  - repeat constructor.
Defined.

(** * Which events start a generation *)

(** [event.Op&fsnotify.Write == fsnotify.Write] tests bit 1 of [Op]. *)
Lemma isWrite_testbit (op : Z) : isWrite op = Z.testbit op 1.
Proof.
  unfold isWrite, fsnotify.Write.
  assert (Z.land op 2 = if Z.testbit op 1 then 2 else 0)%Z as ->.
  { apply Z.bits_inj'. intros n Hn. rewrite Z.land_spec.
    change 2%Z with (2 ^ 1)%Z. rewrite Z.pow2_bits_eqb by lia.
    destruct (Z.eqb_spec 1 n) as [<- | Hne].
    - destruct (Z.testbit op 1); cbn [andb].
      + symmetry. by apply Z.pow2_bits_true.
      + symmetry. apply Z.bits_0.
    - rewrite andb_false_r. destruct (Z.testbit op 1).
      + symmetry. by apply Z.pow2_bits_false.
      + symmetry. apply Z.bits_0. }
  by destruct (Z.testbit op 1).
Qed.

Section WriteBit.
Context `{Platform}.
Variable entrypoint : string.

(** X15. When the loop is running with its window closed and receives an
    event of a relevant path, it starts a generation exactly when bit 1 of
    the event's [Op] is set ([fsnotify.Write] is 2): an operation that
    includes [Write], such as [Write|Chmod], starts one, and for [Create],
    [Remove], [Rename] and [Chmod] without [Write] the iteration changes
    nothing at all. *)
Theorem loop_starts_on_the_Write_bit (s : State) (now : Z) (event : fsnotify.Event) :
  running s = true →
  fired s = false →
  fsnotify.Name event ∈ paths (shared s) →
  generations (step entrypoint now s (Loop (RecvEvent event)))
  = (if Z.testbit (fsnotify.Op event) 1 then S (generations s) else generations s)
  ∧ fired (step entrypoint now s (Loop (RecvEvent event))) = Z.testbit (fsnotify.Op event) 1
  ∧ (Z.testbit (fsnotify.Op event) 1 = false →
     step entrypoint now s (Loop (RecvEvent event)) = s).
Proof.
  intros Hrun Hf Hrel. unfold step, iteration. rewrite Hrun.
  rewrite bool_decide_eq_true_2 by done.
  rewrite isWrite_testbit, Hf.
  destruct (Z.testbit (fsnotify.Op event) 1).
  - split_and!; [apply accept_generations | done | done].
  - done.
Qed.

End WriteBit.

Lemma loop_starts_on_the_Write_bit_witness :
  generations
    (@step Demo.platform "main.toit" 10%Z Runs.probed
       (Loop (RecvEvent {| fsnotify.Name := "main.toit";
                           fsnotify.Op := Z.lor fsnotify.Write fsnotify.Chmod |})))
  = (if Z.testbit (Z.lor fsnotify.Write fsnotify.Chmod) 1
     then S (generations Runs.probed) else generations Runs.probed)
  ∧ fired
      (@step Demo.platform "main.toit" 10%Z Runs.probed
         (Loop (RecvEvent {| fsnotify.Name := "main.toit";
                             fsnotify.Op := Z.lor fsnotify.Write fsnotify.Chmod |})))
    = Z.testbit (Z.lor fsnotify.Write fsnotify.Chmod) 1
  ∧ (Z.testbit (Z.lor fsnotify.Write fsnotify.Chmod) 1 = false →
     @step Demo.platform "main.toit" 10%Z Runs.probed
       (Loop (RecvEvent {| fsnotify.Name := "main.toit";
                           fsnotify.Op := Z.lor fsnotify.Write fsnotify.Chmod |}))
     = Runs.probed).
Proof.
  apply (@loop_starts_on_the_Write_bit Demo.platform "main.toit" Runs.probed 10%Z
           {| fsnotify.Name := "main.toit";
              fsnotify.Op := Z.lor fsnotify.Write fsnotify.Chmod |}).
  - reflexivity.
  - reflexivity.
  - vm_compute. reflexivity.
Defined.

(** * Further properties of [WatchCmd] *)

Section WatchCmdMore.
Context `{Platform}.

(** X16. [RunE] returns an error only before the loop is started: every
    failure (of a collaborator, of the entrypoint check, of [newWatcher])
    ends it with [onWatchChanges] not called, and once [onWatchChanges]
    was called it returns no error.  It returns [nil] only after the loop
    has returned and closed [doneCh], and waits as long as the loop runs. *)
Theorem RunE_fails_only_before_the_loop
    (env : Collaborators) (entrypoint : string)
    (runFile : option error) (now : Z) (sched : Schedule) :
  ((∃ e, snd (RunE env entrypoint runFile now sched) = Failed e)
   ↔ CallOnWatchChanges ∉ fst (RunE env entrypoint runFile now sched))
  ∧ (∀ s, snd (RunE env entrypoint runFile now sched) = Returned s →
          running s = false ∧ countIf isCloseDone (trace s) = 1)
  ∧ (∀ s, snd (RunE env entrypoint runFile now sched) = Waiting s →
          running s = true ∧ countIf isCloseDone (trace s) = 0).
Proof.
  assert (∀ l : list StartupCall,
            Forall (λ c, c ≠ CallOnWatchChanges) l → CallOnWatchChanges ∉ l) as Hnot.
  { intros l Hl Hin. rewrite Forall_forall in Hl. by apply (Hl _ Hin). }
  unfold RunE.
  destruct (GetProgramAssetsPath env) as [assets|e0].
  2: { split_and!; [|done..]. split; [intros _; apply Hnot; by repeat constructor | eauto]. }
  destruct (os_Stat entrypoint) as [[|] | | e1].
  2: destruct (parseDeviceFlag env) as [e2|].
  3: destruct (GetSDK env) as [e3|].
  4: destruct (GetDevice env) as [e4|].
  5: destruct (optimizationLevelFlag env) as [[z|e5]|].
  5,7: destruct newWatcher as [w|e6].
  all: simpl.
  all: try (split_and!; [|done..]; split;
            [intros _; apply Hnot; by repeat constructor | eauto]).
  all: pose proof (exec_closedOnReturn entrypoint w runFile now sched) as Hclosed;
    unfold closedOnReturn in Hclosed;
    destruct (running (exec entrypoint (onWatchChanges w runFile now) sched)) eqn:Hrun.
  all: split_and!;
    [ split; [intros [e [=]] | intros Hn; exfalso; apply Hn; set_solver]
    | intros s [= <-]; by rewrite ?Hrun
    | intros s [= <-]; by rewrite ?Hrun ].
Qed.

End WatchCmdMore.

(** * Further properties of [parseDependeniesToDirs] *)

Section ParserMore.
Context `{Platform}.

Lemma whileFits_stops (before after : list (list byte)) (long : list byte) :
  Forall (λ l, GoScanner.fits l = true) before →
  GoScanner.fits long = false →
  GoScanner.whileFits (before ++ long :: after) = before.
Proof.
  intros Hb Hl. induction Hb as [|l before Hfit _ IH]; simpl.
  - by rewrite Hl.
  - by rewrite Hfit, IH.
Qed.

(** X17. The scanner gives up at the first line of 64 KiB or more, and
    the error is not looked at: the dependencies are those of the lines
    before that line, and the lines after it are ignored, also when they
    name existing paths. *)
Theorem parseDependeniesToDirs_stops_at_long_line
    (b : list byte) (before after : list (list byte)) (long : list byte) (p : string) :
  GoScanner.splitLines [] b = before ++ long :: after →
  Forall (λ l, GoScanner.fits l = true) before →
  GoScanner.fits long = false →
  p ∈ parseDependeniesToDirs b
  ↔ ∃ l, l ∈ before
       ∧ dependencyOfLine (GoScanner.dropCR l) = p
       ∧ statSucceeds p = true.
Proof.
  intros Hsplit Hb Hl. unfold parseDependeniesToDirs, GoScanner.scanLines.
  rewrite Hsplit, (whileFits_stops _ _ _ Hb Hl).
  rewrite elem_of_elements, recordDependency_fold. split.
  - intros [Hin | (t & Hin & Hp & Hs)]; [set_solver|].
    apply list_elem_of_fmap in Hin as (l & -> & Hin). eauto.
  - intros (l & Hin & Hp & Hs). right. exists (GoScanner.dropCR l).
    split_and!; [|done..]. apply list_elem_of_fmap. eauto.
Qed.

End ParserMore.

Lemma parseDependeniesToDirs_stops_at_long_line_witness :
  "lib/b.toit" ∈ @parseDependeniesToDirs Demo.platform LongLine.reportBytes
  ↔ ∃ l, l ∈ LongLine.before
       ∧ dependencyOfLine (GoScanner.dropCR l) = "lib/b.toit"
       ∧ @statSucceeds Demo.platform "lib/b.toit" = true.
Proof.
  apply (@parseDependeniesToDirs_stops_at_long_line Demo.platform LongLine.reportBytes
           LongLine.before LongLine.after LongLine.line "lib/b.toit").
  - vm_cast_no_check (@eq_refl (list (list byte)) (LongLine.before ++ LongLine.line :: LongLine.after)).
  - repeat constructor.
  - vm_compute. reflexivity.
Defined.

(** * After the loop has returned *)

Section ReturnFacts.
Context `{Platform}.
Variable entrypoint : string.

Lemma step_after_return (now : Z) (s : State) (st : Step) :
  running s = false →
  running (step entrypoint now s st) = false
  ∧ generations (step entrypoint now s st) = generations s
  ∧ cancelled (step entrypoint now s st) ⊆ {[rootCtx]} ∪ cancelled s.
Proof.
  intros Hrun. unfold generations.
  fold (countIf startsRun (trace (step entrypoint now s st))).
  fold (countIf startsRun (trace s)).
  destruct (step_shape entrypoint now s st)
    as [(name & Hrun' & _)
       | [(Hrun' & _) | (Hr & _ & _ & Hc & new & -> & Hnew)]]; [congruence..|].
  split_and!.
  - congruence.
  - rewrite countIf_app, (countIf_Println startsRun new); [lia | done | done].
  - destruct Hc as [-> | ->]; set_solver.
Qed.

(** X18. Once the loop has returned, nothing starts any more: whatever
    happens afterwards (events, ticks, probes and runs that complete), the
    loop stays returned, no generation is started and no context of a
    generation is cancelled. *)
Theorem nothing_starts_after_return (s : State) (sched : Schedule) :
  running s = false →
  running (exec entrypoint s sched) = false
  ∧ generations (exec entrypoint s sched) = generations s
  ∧ cancelled (exec entrypoint s sched) ⊆ {[rootCtx]} ∪ cancelled s.
Proof.
  revert s. induction sched as [|[t st] sched IH]; intros s Hrun.
  - split_and!; [done..|]. set_solver.
  - rewrite exec_cons.
    destruct (step_after_return t s st Hrun) as (Hrun' & Hg & Hc).
    destruct (IH _ Hrun') as (Hrun'' & Hg' & Hc').
    split_and!; [done | congruence | set_solver].
Qed.

End ReturnFacts.

Lemma nothing_starts_after_return_witness :
  running
    (@exec Demo.platform "main.toit"
       (@exec Demo.platform "main.toit" Runs.probed [(20%Z, Loop EventsClosed)])
       [(30%Z, Demo.write "main.toit"); (130%Z, Loop RecvTick)])
  = false
  ∧ generations
      (@exec Demo.platform "main.toit"
         (@exec Demo.platform "main.toit" Runs.probed [(20%Z, Loop EventsClosed)])
         [(30%Z, Demo.write "main.toit"); (130%Z, Loop RecvTick)])
    = generations (@exec Demo.platform "main.toit" Runs.probed [(20%Z, Loop EventsClosed)])
  ∧ cancelled
      (@exec Demo.platform "main.toit"
         (@exec Demo.platform "main.toit" Runs.probed [(20%Z, Loop EventsClosed)])
         [(30%Z, Demo.write "main.toit"); (130%Z, Loop RecvTick)])
    ⊆ {[rootCtx]}
      ∪ cancelled (@exec Demo.platform "main.toit" Runs.probed [(20%Z, Loop EventsClosed)]).
Proof.
  apply (@nothing_starts_after_return Demo.platform "main.toit"
           (@exec Demo.platform "main.toit" Runs.probed [(20%Z, Loop EventsClosed)])
           [(30%Z, Demo.write "main.toit"); (130%Z, Loop RecvTick)]).
  vm_compute. reflexivity.
Defined.
